(** * go-multibase: the validated [Encoder] handle and its streaming writer

    A shallow embedding of [encoder.go].  Go values are modelled as follows:

    - [int], [rune] and the [Encoding] identifier are [Z];
    - [[]byte] is [list byte], a Go [string] is a [string] (one character
      per byte);
    - a function returning [(T, error)] returns a pair with an
      [option error], [None] standing for [nil];
    - a function that may panic returns an [outcome];
    - the objects reached through pointers and interfaces (the sink
      [out], the encoder allocated by the library) live in an explicit
      [world] that every method call threads through.  *)

From Stdlib Require Import ZArith List String Ascii Lia.
From Stdlib.Strings Require Import Byte.
From stdpp Require Import base gmap strings list.

Local Open Scope Z_scope.

(** ** Bytes, strings and errors *)

(** The conversion [byte(x)] of an integer keeps its low eight bits. *)
Definition byte_of_int (x : Z) : byte :=
  match Byte.of_N (Z.to_N (x mod 256)) with
  | Some b => b
  | None => Byte.x00
  end.

Definition int_of_byte (b : byte) : Z := Z.of_N (Byte.to_N b).

(** [len(s)] of a slice or of a string. *)
Definition len {A} (l : list A) : Z := Z.of_nat (List.length l).

(** The code point of an ASCII character constant such as ['b']. *)
Definition rune_of_ascii (c : ascii) : Z := Z.of_N (N_of_ascii c).

(** [type Encoding int] *)
Definition Encoding : Type := Z.

(** The error values built in [encoder.go] with [fmt.Errorf], one
    constructor per call site, and the errors that come from elsewhere. *)
Inductive error : Type :=
| UnsupportedEncodingId (base : Encoding)
    (* fmt.Errorf("unsupported multibase encoding: %d", base) *)
| EmptyEncodingName
    (* fmt.Errorf("empty multibase encoding") *)
| UnsupportedEncodingName (str : string)
    (* fmt.Errorf("unsupported multibase encoding: %s", str) *)
| UnsupportedAsWriter
    (* fmt.Errorf("unsupported encoding as writer") *)
| ErrUnsupportedEncoding
    (* the error of the dispatcher [Encode] for an unknown identifier *)
| ForeignError (msg : string).
    (* an error produced by the sink or by a library encoder *)

(** The spec's error taxonomy groups the two "unsupported multibase
    encoding" messages under one name. *)
Definition UnsupportedEncoding (e : error) : Prop :=
  match e with
  | UnsupportedEncodingId _ | UnsupportedEncodingName _ | ErrUnsupportedEncoding => True
  | _ => False
  end.

(** What a call that may panic does. *)
Inductive panic_value : Type :=
| PanicString (msg : string)
| PanicError (e : error).

Inductive outcome (A : Type) : Type :=
| Returned (a : A)
| Panicked (v : panic_value).
Arguments Returned {A} a.
Arguments Panicked {A} v.

(** ** UTF-8, as package [unicode/utf8] decodes and encodes it *)

Module utf8.

Definition RuneError : Z := 0xFFFD.
Definition RuneSelf : Z := 0x80.
Definition MaxRune : Z := 0x10FFFF.

Definition tx : Z := 0x80.
Definition t2 : Z := 0xC0.
Definition t3 : Z := 0xE0.
Definition t4 : Z := 0xF0.
Definition maskx : Z := 0x3F.
Definition mask2 : Z := 0x1F.
Definition mask3 : Z := 0x0F.
Definition mask4 : Z := 0x07.
Definition locb : Z := 0x80.
Definition hicb : Z := 0xBF.

Definition xx : Z := 0xF1. (* invalid: size 1 *)
Definition as_ : Z := 0xF0. (* ASCII: size 1 *)
Definition s1 : Z := 0x02. (* accept 0, size 2 *)
Definition s2 : Z := 0x13. (* accept 1, size 3 *)
Definition s3 : Z := 0x03. (* accept 0, size 3 *)
Definition s4 : Z := 0x23. (* accept 2, size 3 *)
Definition s5 : Z := 0x34. (* accept 3, size 4 *)
Definition s6 : Z := 0x04. (* accept 0, size 4 *)
Definition s7 : Z := 0x44. (* accept 4, size 4 *)

(** The table [first]: information about the first byte of a sequence. *)
Definition first (c : Z) : Z :=
  if c <? 0x80 then as_
  else if c <? 0xC2 then xx
  else if c <? 0xE0 then s1
  else if c =? 0xE0 then s2
  else if c <? 0xED then s3
  else if c =? 0xED then s4
  else if c <? 0xF0 then s3
  else if c =? 0xF0 then s5
  else if c <? 0xF4 then s6
  else if c =? 0xF4 then s7
  else xx.

(** The table [acceptRanges]: the bounds of the second byte. *)
Definition acceptRanges (i : Z) : Z * Z :=
  if i =? 0 then (locb, hicb)
  else if i =? 1 then (0xA0, hicb)
  else if i =? 2 then (locb, 0x9F)
  else if i =? 3 then (0x90, hicb)
  else if i =? 4 then (locb, 0x8F)
  else (0, 0).

(** [DecodeRuneInString] on the bytes of the string: the first rune and
    its width in bytes; [(RuneError, 0)] on the empty string and
    [(RuneError, 1)] on an invalid sequence. *)
Definition DecodeRune (s : list Z) : Z * Z :=
  match s with
  | [] => (RuneError, 0)
  | c0 :: t0 =>
      let x := first c0 in
      if as_ <=? x then ((if x =? xx then RuneError else c0), 1)
      else
        let sz := Z.land x 7 in
        let '(lo, hi) := acceptRanges (Z.shiftr x 4) in
        if len s <? sz then (RuneError, 1)
        else
          match t0 with
          | [] => (RuneError, 1)
          | c1 :: t1 =>
              if (c1 <? lo) || (hi <? c1) then (RuneError, 1)
              else if sz <=? 2 then
                (Z.lor (Z.shiftl (Z.land c0 mask2) 6) (Z.land c1 maskx), 2)
              else
                match t1 with
                | [] => (RuneError, 1)
                | c2 :: t2 =>
                    if (c2 <? locb) || (hicb <? c2) then (RuneError, 1)
                    else if sz <=? 3 then
                      (Z.lor (Z.lor (Z.shiftl (Z.land c0 mask3) 12)
                                    (Z.shiftl (Z.land c1 maskx) 6))
                             (Z.land c2 maskx), 3)
                    else
                      match t2 with
                      | [] => (RuneError, 1)
                      | c3 :: _ =>
                          if (c3 <? locb) || (hicb <? c3) then (RuneError, 1)
                          else
                            (Z.lor (Z.lor (Z.lor (Z.shiftl (Z.land c0 mask4) 18)
                                                 (Z.shiftl (Z.land c1 maskx) 12))
                                          (Z.shiftl (Z.land c2 maskx) 6))
                                   (Z.land c3 maskx), 4)
                      end
                end
          end
  end.

(** The loop of [RuneCountInString]: one rune is counted at every
    position the scan stops at, and the scan advances by the width of the
    sequence that starts there; [skip] is the number of bytes still to
    pass before the next stop. *)
Fixpoint RuneCount_from (skip : nat) (s : list Z) : Z :=
  match s with
  | [] => 0
  | _ :: rest =>
      match skip with
      | S k => RuneCount_from k rest
      | O => 1 + RuneCount_from (Z.to_nat (snd (DecodeRune s) - 1)) rest
      end
  end.

Definition bytes (s : string) : list Z := int_of_byte <$> list_byte_of_string s.

Definition RuneCountInString (s : string) : Z := RuneCount_from 0 (bytes s).

Definition DecodeRuneInString (s : string) : Z * Z := DecodeRune (bytes s).

(** [EncodeRune]: the bytes of a rune; a rune out of range or a surrogate
    is written as [RuneError]. *)
Definition EncodeRune (r : Z) : list Z :=
  if (0 <=? r) && (r <=? 0x7F) then [r]
  else if (0 <=? r) && (r <=? 0x7FF) then
    [Z.lor t2 (Z.shiftr r 6); Z.lor tx (Z.land r maskx)]
  else if (r <? 0) || (MaxRune <? r) || ((0xD800 <=? r) && (r <=? 0xDFFF)) then
    [0xEF; 0xBF; 0xBD]
  else if r <=? 0xFFFF then
    [Z.lor t3 (Z.shiftr r 12); Z.lor tx (Z.land (Z.shiftr r 6) maskx);
     Z.lor tx (Z.land r maskx)]
  else
    [Z.lor t4 (Z.shiftr r 18); Z.lor tx (Z.land (Z.shiftr r 12) maskx);
     Z.lor tx (Z.land (Z.shiftr r 6) maskx); Z.lor tx (Z.land r maskx)].

Definition ValidRune (r : Z) : bool :=
  ((0 <=? r) && (r <? 0xD800)) || ((0xDFFF <? r) && (r <=? MaxRune)).

End utf8.

(** The conversion [string(rune(x))]. *)
Definition string_of_rune (r : Z) : string :=
  string_of_list_byte (byte_of_int <$> utf8.EncodeRune r).

(** ** The registry *)

(** Modelled from the spec: the identifier constants of the package,
    declared outside [encoder.go].  An identifier is the code point of its
    tag; the values are those of the spec's tag table. *)
Definition Identity : Encoding := 0x00.
Definition Base2 : Encoding := rune_of_ascii "0".
Definition Base16 : Encoding := rune_of_ascii "f".
Definition Base16Upper : Encoding := rune_of_ascii "F".
Definition Base32 : Encoding := rune_of_ascii "b".
Definition Base32Upper : Encoding := rune_of_ascii "B".
Definition Base32pad : Encoding := rune_of_ascii "c".
Definition Base32padUpper : Encoding := rune_of_ascii "C".
Definition Base32hex : Encoding := rune_of_ascii "v".
Definition Base32hexUpper : Encoding := rune_of_ascii "V".
Definition Base32hexPad : Encoding := rune_of_ascii "t".
Definition Base32hexPadUpper : Encoding := rune_of_ascii "T".
Definition Base36 : Encoding := rune_of_ascii "k".
Definition Base36Upper : Encoding := rune_of_ascii "K".
Definition Base58BTC : Encoding := rune_of_ascii "z".
Definition Base58Flickr : Encoding := rune_of_ascii "Z".
Definition Base64 : Encoding := rune_of_ascii "m".
Definition Base64url : Encoding := rune_of_ascii "u".
Definition Base64pad : Encoding := rune_of_ascii "M".
Definition Base64urlPad : Encoding := rune_of_ascii "U".
Definition Base256Emoji : Encoding := 0x1F680.

(** The registry tables as the spec gives them. *)
Module SpecTable.

(** Modelled from the spec: the table [EncodingToStr] of the package
    (identifier to name), declared outside [encoder.go]; its rows are the
    spec's tag table. *)
Definition EncodingToStr : gmap Z string :=
  list_to_map
    [ (Identity, "identity"); (Base2, "base2");
      (Base16, "base16"); (Base16Upper, "base16upper");
      (Base32, "base32"); (Base32Upper, "base32upper");
      (Base32pad, "base32pad"); (Base32padUpper, "base32padupper");
      (Base32hex, "base32hex"); (Base32hexUpper, "base32hexupper");
      (Base32hexPad, "base32hexpad"); (Base32hexPadUpper, "base32hexpadupper");
      (Base36, "base36"); (Base36Upper, "base36upper");
      (Base58BTC, "base58btc"); (Base58Flickr, "base58flickr");
      (Base64, "base64"); (Base64url, "base64url");
      (Base64pad, "base64pad"); (Base64urlPad, "base64urlpad");
      (Base256Emoji, "base256emoji") ].

(** Modelled from the spec: the table [Encodings] of the package (name to
    identifier), declared outside [encoder.go]: the same rows, read the
    other way. *)
Definition Encodings : gmap string Z :=
  list_to_map ((fun kv : Z * string => (kv.2, kv.1)) <$> map_to_list EncodingToStr).

End SpecTable.

(** ** The handle *)

Section Handles.

(** The two tables of the package that the constructors consult; they are
    declared outside [encoder.go], and the constructors are verified for
    any content of them. *)
Variable EncodingToStr : gmap Z string.
Variable Encodings : gmap string Z.

(** [type Encoder struct { enc Encoding }] *)
Record Encoder : Type := mkEncoder { enc : Encoding }.

(** The comma-ok lookup [_, ok := EncodingToStr[base]]. *)
Definition registered (base : Encoding) : bool :=
  bool_decide (is_Some (EncodingToStr !! base)).

Definition NewEncoder (base : Encoding) : Encoder * option error :=
  let ok := registered base in
  if negb ok then (mkEncoder (-1), Some (UnsupportedEncodingId base))
  else (mkEncoder base, None).

Definition MustNewEncoder (base : Encoding) : outcome Encoder :=
  let ok := registered base in
  if negb ok then Panicked (PanicString "Unsupported multibase encoding")
  else Returned (mkEncoder base).

Definition EncoderByName (str : string) : Encoder * option error :=
  if len (list_byte_of_string str) =? 0 then
    (mkEncoder (-1), Some EmptyEncodingName)
  else
    let '(base, ok) :=
      if utf8.RuneCountInString str =? 1 then
        let '(r, _) := utf8.DecodeRuneInString str in
        let base : Encoding := r in
        (base, registered base)
      else
        match Encodings !! str with
        | Some base => (base, true)
        | None => (0, false)
        end in
    if negb ok then (mkEncoder (-1), Some (UnsupportedEncodingName str))
    else (mkEncoder base, None).

(** [func (p Encoder) Encoding() Encoding] *)
Definition Encoder_Encoding (p : Encoder) : Encoding := enc p.

End Handles.

(** ** Sinks and library encoders *)

(** An object behind an [io.Writer]: its state is of type [S], a [Write]
    returns the count, the error and the new state.  [io_Close] is present
    when the dynamic type of the object also implements [io.Closer]. *)
Record io_Writer (S : Type) : Type := {
  io_Write : S -> list byte -> (Z * option error) * S;
  io_Close : option (S -> option error * S)
}.
Arguments io_Write {S} _ _ _.
Arguments io_Close {S} _.

(** The base32 encodings of the package, declared outside [encoder.go],
    and the four encodings of [encoding/base64] the writer uses. *)
Inductive b32_Encoding : Type :=
| base32StdLowerNoPad | base32StdUpperNoPad
| base32HexLowerNoPad | base32HexUpperNoPad
| base32StdLowerPad | base32StdUpperPad
| base32HexLowerPad | base32HexUpperPad.

Inductive base64_Encoding : Type :=
| StdEncoding | URLEncoding | RawURLEncoding | RawStdEncoding.

(** The three constructors of streaming encoders that [newEncoderWriter]
    calls.  An [encoder] is the object a constructor allocates (with its
    dynamic type); it writes to the sink it was given, whose state its
    methods therefore transform.  [encoder_Close] is present when the
    object implements [io.Closer]. *)
Record Library (S : Type) : Type := {
  encoder : Type;
  hex_NewEncoder : encoder;
  b32_NewEncoder : b32_Encoding -> encoder;
  base64_NewEncoder : base64_Encoding -> encoder;
  encoder_Write : encoder -> list byte -> S -> (Z * option error) * (encoder * S);
  encoder_Close : encoder -> option (S -> option error * (encoder * S))
}.
Arguments encoder {S} _.
Arguments hex_NewEncoder {S} _.
Arguments b32_NewEncoder {S} _ _.
Arguments base64_NewEncoder {S} _ _.
Arguments encoder_Write {S} _ _ _ _.
Arguments encoder_Close {S} _ _.

(** ** The streaming writer *)

(** The two objects an [encoderWriter] can refer to. *)
Inductive ref : Type :=
| the_sink     (* the io.Writer handed to newEncoderWriter *)
| the_encoder. (* the library encoder newEncoderWriter allocated *)

(** [type encoderWriter struct]; [out] and [processor] are interface
    values, that is references ([None] is the nil interface). *)
Record encoderWriter : Type := mkEncoderWriter {
  ew_enc : Encoding;
  out : ref;
  headerWritten : bool;
  processor : option ref
}.

Section Writer.

Context {S : Type}.
Variable sink_obj : io_Writer S.
Variable lib : Library S.

(** The objects the references designate. *)
Record world : Type := mkWorld {
  sink : S;
  codec : option (encoder lib)
}.

(** The call [r.Write(p)] through a reference. *)
Definition ref_Write (r : ref) (p : list byte) (w : world)
  : (Z * option error) * world :=
  match r with
  | the_sink =>
      let '(res, s) := io_Write sink_obj (sink w) p in
      (res, mkWorld s (codec w))
  | the_encoder =>
      match codec w with
      | Some e =>
          let '(res, (e', s)) := encoder_Write lib e p (sink w) in
          (res, mkWorld s (Some e'))
      | None => ((0, None), w) (* no such object: newEncoderWriter never builds this *)
      end
  end.

(** The type assertion [r.(io.Closer)]: the [Close] method of the object,
    when its dynamic type has one. *)
Definition ref_Closer (r : ref) (w : world)
  : option (world -> option error * world) :=
  match r with
  | the_sink =>
      match io_Close sink_obj with
      | Some close =>
          Some (fun w => let '(err, s) := close (sink w) in (err, mkWorld s (codec w)))
      | None => None
      end
  | the_encoder =>
      match codec w with
      | Some e =>
          match encoder_Close lib e with
          | Some close =>
              Some (fun w => let '(err, (e', s)) := close (sink w) in
                             (err, mkWorld s (Some e')))
          | None => None
          end
      | None => None
      end
  end.

(** The assignments [ew.processor = ...] and [ew.headerWritten = ...]. *)
Definition set_processor (ew : encoderWriter) (proc : option ref) : encoderWriter :=
  mkEncoderWriter (ew_enc ew) (out ew) (headerWritten ew) proc.

Definition set_headerWritten (ew : encoderWriter) (b : bool) : encoderWriter :=
  mkEncoderWriter (ew_enc ew) (out ew) b (processor ew).

(** [newEncoderWriter(enc, out)]: the struct it allocates and the world
    after the call, [s] being the state of the sink [out].  The cases of
    the [switch] are constants, which Go requires to differ, so that the
    cases are tried here one after the other.  A case that calls a
    constructor of the library allocates the encoder. *)
Definition newEncoderWriter (enc : Encoding) (s : S) : encoderWriter * world :=
  let ew := mkEncoderWriter enc the_sink false None in
  let with_encoder (e : encoder lib) :=
    (set_processor ew (Some the_encoder), mkWorld s (Some e)) in
  if enc =? Identity then (set_processor ew (Some (out ew)), mkWorld s None)
  else if enc =? Base16 then with_encoder (hex_NewEncoder lib)
  else if enc =? Base32 then with_encoder (b32_NewEncoder lib base32StdLowerNoPad)
  else if enc =? Base32Upper then with_encoder (b32_NewEncoder lib base32StdUpperNoPad)
  else if enc =? Base32hex then with_encoder (b32_NewEncoder lib base32HexLowerNoPad)
  else if enc =? Base32hexUpper then with_encoder (b32_NewEncoder lib base32HexUpperNoPad)
  else if enc =? Base32pad then with_encoder (b32_NewEncoder lib base32StdLowerPad)
  else if enc =? Base32padUpper then with_encoder (b32_NewEncoder lib base32StdUpperPad)
  else if enc =? Base32hexPad then with_encoder (b32_NewEncoder lib base32HexLowerPad)
  else if enc =? Base32hexPadUpper then with_encoder (b32_NewEncoder lib base32HexUpperPad)
  else if enc =? Base64pad then with_encoder (base64_NewEncoder lib StdEncoding)
  else if enc =? Base64urlPad then with_encoder (base64_NewEncoder lib URLEncoding)
  else if enc =? Base64url then with_encoder (base64_NewEncoder lib RawURLEncoding)
  else if enc =? Base64 then with_encoder (base64_NewEncoder lib RawStdEncoding)
  else
    (* case Base2, Base16Upper, Base36, Base36Upper, Base58BTC,
       Base58Flickr, Base256Emoji: unsupported; any other value: no case.
       The test [ew.processor == nil] that follows has an empty body. *)
    (ew, mkWorld s None).

(** [func (p Encoder) Writer(w io.Writer) io.WriteCloser] *)
Definition Encoder_Writer (p : Encoder) (s : S) : encoderWriter * world :=
  newEncoderWriter (enc p) s.

(** The body of [func (ew encoderWriter) Write(p []byte) (n int, err error)].
    The receiver [ew] is a parameter passed by value: the body works on its
    own copy of the struct, and the first component of the result is that
    copy when the body returns. *)
Definition Write_body (ew : encoderWriter) (p : list byte) (w : world)
  : encoderWriter * (Z * option error) * world :=
  match processor ew with
  | None => (ew, (-1, Some UnsupportedAsWriter), w)
  | Some proc =>
      if negb (headerWritten ew) then
        let '((_, err), w1) := ref_Write (out ew) [byte_of_int (ew_enc ew)] w in
        match err with
        | Some e => (ew, (0, Some e), w1)
        | None =>
            let ew1 := set_headerWritten ew true in
            let '(res, w2) := ref_Write proc p w1 in
            (ew1, res, w2)
        end
      else
        let '(res, w2) := ref_Write proc p w in
        (ew, res, w2)
  end.

(** What a caller of [Write] observes: the results and the world.  The
    copy of the receiver is gone when the call returns. *)
Definition Write (ew : encoderWriter) (p : list byte) (w : world)
  : (Z * option error) * world :=
  let '(_, res, w') := Write_body ew p w in (res, w').

(** [func (ew encoderWriter) Close() error] *)
Definition Close (ew : encoderWriter) (w : world) : option error * world :=
  match processor ew with
  | None => (None, w)
  | Some proc =>
      match ref_Closer proc w with
      | Some closer_Close => closer_Close w
      | None => (None, w)
      end
  end.

(** A writer in use: the struct [newEncoderWriter] returned a pointer to,
    and the objects it refers to.  A method called through the pointer
    receives a copy of [this]. *)
Record instance : Type := mkInstance {
  this : encoderWriter;
  objects : world
}.

Definition NewWriter (enc : Encoding) (s : S) : instance :=
  let '(ew, w) := newEncoderWriter enc s in mkInstance ew w.

Definition call_Write (i : instance) (p : list byte)
  : (Z * option error) * instance :=
  let '(res, w) := Write (this i) p (objects i) in
  (res, mkInstance (this i) w).

Definition call_Close (i : instance) : option error * instance :=
  let '(err, w) := Close (this i) (objects i) in
  (err, mkInstance (this i) w).

(** The chunks written one after the other; the results of the calls, in
    order, and the writer after the last one. *)
Fixpoint Write_each (i : instance) (chunks : list (list byte))
  : list (Z * option error) * instance :=
  match chunks with
  | [] => ([], i)
  | p :: rest =>
      let '(res, i1) := call_Write i p in
      let '(ress, i2) := Write_each i1 rest in
      (res :: ress, i2)
  end.

(** Every chunk written, then [Close]: the sink at the end. *)
Definition stream (enc : Encoding) (chunks : list (list byte)) (s : S) : S :=
  sink (objects (call_Close (Write_each (NewWriter enc s) chunks).2).2).

End Writer.

Arguments mkWorld {S lib} _ _.
Arguments sink {S lib} _.
Arguments codec {S lib} _.
Arguments mkInstance {S lib} _ _.
Arguments this {S lib} _.
Arguments objects {S lib} _.

(** ** Two sinks *)

(** A sink that keeps what it is given, as [bytes.Buffer] does: [Write]
    appends and never fails; the type has no [Close]. *)
Definition Buffer : io_Writer (list byte) :=
  {| io_Write := fun s p => ((len p, None), s ++ p);
     io_Close := None |}.

(** A sink whose [Write] takes nothing and fails, and that counts the
    calls it receives. *)
Definition ErrClosedPipe : error := ForeignError "io: read/write on closed pipe".

Definition Broken : io_Writer nat :=
  {| io_Write := fun calls _ => ((0, Some ErrClosedPipe), Datatypes.S calls);
     io_Close := None |}.

(** ** The encoders of the libraries

    The packages [encoding/hex], [encoding/base64] and [go-base32] are not
    part of the repository.  The definitions below describe their
    whole-buffer functions and their streaming encoders; the theorems on
    the writer take a [Library] as a parameter and are instantiated with
    this one. *)

Module hex.

Definition hextable : list byte := list_byte_of_string "0123456789abcdef".

Definition digit (i : Z) : byte := nth (Z.to_nat i) hextable Byte.x00.

(** [hex.Encode]: two digits per byte, high nibble first. *)
Definition Encode (src : list byte) : list byte :=
  flat_map (fun v => [digit (Z.shiftr (int_of_byte v) 4);
                      digit (Z.land (int_of_byte v) 0x0f)]) src.

Definition EncodeToString (src : list byte) : string :=
  string_of_list_byte (Encode src).

Definition bufferSize : Z := 1024.

Section Encoder.
Context {S : Type} (w : io_Writer S).

(** The loop of the encoder's [Write]: while input is left and no error
    is recorded, encode at most [bufferSize / 2] bytes and hand them to
    [w].  [err] is the error the encoder keeps.  Every turn consumes a
    byte at least, so [fuel] counts the bytes of the input. *)
Fixpoint Write_loop (fuel : nat) (err : option error) (p : list byte) (n : Z) (s : S)
  : (Z * option error) * (option error * S) :=
  match fuel with
  | O => ((n, err), (err, s))
  | Datatypes.S fuel' =>
      if (0 <? len p) && bool_decide (err = None) then
        let chunkSize := if len p <? bufferSize / 2 then len p else bufferSize / 2 in
        let encoded := Encode (take (Z.to_nat chunkSize) p) in
        let '((written, err'), s') := io_Write w s encoded in
        Write_loop fuel' err' (drop (Z.to_nat chunkSize) p) (n + Z.quot written 2) s'
      else ((n, err), (err, s))
  end.

Definition Write (err : option error) (p : list byte) (s : S)
  : (Z * option error) * (option error * S) :=
  Write_loop (List.length p) err p 0 s.

End Encoder.
End hex.

(** What [encoding/base64] and [go-base32] share: an alphabet, an
    optional padding character, and a streaming encoder that keeps the
    bytes of an incomplete group until the group is full or the encoder is
    closed. *)
Record Alphabet : Type := {
  encode : list byte;
  padChar : option byte
}.

Definition symbol (a : Alphabet) (i : Z) : byte := nth (Z.to_nat i) (encode a) Byte.x00.

Definition padding (a : Alphabet) (n : nat) : list byte :=
  match padChar a with
  | Some c => repeat c n
  | None => []
  end.

Module base64.

Definition encodeStd : list byte :=
  list_byte_of_string "ABCDEFGHIJKLMNOPQRSTUVWXYZabcdefghijklmnopqrstuvwxyz0123456789+/".
Definition encodeURL : list byte :=
  list_byte_of_string "ABCDEFGHIJKLMNOPQRSTUVWXYZabcdefghijklmnopqrstuvwxyz0123456789-_".

Definition StdPadding : byte := "="%byte.

Definition alphabet (e : base64_Encoding) : Alphabet :=
  match e with
  | StdEncoding => {| encode := encodeStd; padChar := Some StdPadding |}
  | URLEncoding => {| encode := encodeURL; padChar := Some StdPadding |}
  | RawStdEncoding => {| encode := encodeStd; padChar := None |}
  | RawURLEncoding => {| encode := encodeURL; padChar := None |}
  end.

(** The six-bit digit of [val] at [shift]. *)
Definition sextet (a : Alphabet) (val shift : Z) : byte :=
  symbol a (Z.land (Z.shiftr val shift) 0x3F).

(** [Encoding.Encode]: three bytes give four characters; one or two
    remaining bytes give two or three characters and the padding. *)
Fixpoint Encode (a : Alphabet) (src : list byte) : list byte :=
  match src with
  | [] => []
  | [b0] =>
      let val := Z.shiftl (int_of_byte b0) 16 in
      [sextet a val 18; sextet a val 12] ++ padding a 2
  | [b0; b1] =>
      let val := Z.lor (Z.shiftl (int_of_byte b0) 16) (Z.shiftl (int_of_byte b1) 8) in
      [sextet a val 18; sextet a val 12; sextet a val 6] ++ padding a 1
  | b0 :: b1 :: b2 :: rest =>
      let val := Z.lor (Z.lor (Z.shiftl (int_of_byte b0) 16) (Z.shiftl (int_of_byte b1) 8))
                       (int_of_byte b2) in
      [sextet a val 18; sextet a val 12; sextet a val 6; sextet a val 0] ++ Encode a rest
  end.

Definition EncodeToString (e : base64_Encoding) (src : list byte) : string :=
  string_of_list_byte (Encode (alphabet e) src).

End base64.

Module b32.

Definition encodeStd : list byte := list_byte_of_string "ABCDEFGHIJKLMNOPQRSTUVWXYZ234567".
Definition encodeStdLower : list byte := list_byte_of_string "abcdefghijklmnopqrstuvwxyz234567".
Definition encodeHex : list byte := list_byte_of_string "0123456789ABCDEFGHIJKLMNOPQRSTUV".
Definition encodeHexLower : list byte := list_byte_of_string "0123456789abcdefghijklmnopqrstuv".

Definition StdPadding : byte := "="%byte.

Definition alphabet (e : b32_Encoding) : Alphabet :=
  match e with
  | base32StdLowerNoPad => {| encode := encodeStdLower; padChar := None |}
  | base32StdUpperNoPad => {| encode := encodeStd; padChar := None |}
  | base32HexLowerNoPad => {| encode := encodeHexLower; padChar := None |}
  | base32HexUpperNoPad => {| encode := encodeHex; padChar := None |}
  | base32StdLowerPad => {| encode := encodeStdLower; padChar := Some StdPadding |}
  | base32StdUpperPad => {| encode := encodeStd; padChar := Some StdPadding |}
  | base32HexLowerPad => {| encode := encodeHexLower; padChar := Some StdPadding |}
  | base32HexUpperPad => {| encode := encodeHex; padChar := Some StdPadding |}
  end.

(** The forty bits of a group of up to five bytes, the missing bytes
    counting as zero. *)
Definition quantum (b0 b1 b2 b3 b4 : Z) : Z :=
  Z.lor (Z.lor (Z.lor (Z.lor (Z.shiftl b0 32) (Z.shiftl b1 24)) (Z.shiftl b2 16))
               (Z.shiftl b3 8)) b4.

(** The first [k] five-bit digits of a quantum. *)
Definition quintets (a : Alphabet) (val : Z) (k : nat) : list byte :=
  (fun i : nat => symbol a (Z.land (Z.shiftr val (35 - 5 * Z.of_nat i)) 0x1F)) <$> seq 0 k.

(** [Encoding.Encode]: five bytes give eight characters; one to four
    remaining bytes give two, four, five or seven characters and the
    padding. *)
Fixpoint Encode (a : Alphabet) (src : list byte) : list byte :=
  match src with
  | [] => []
  | [b0] =>
      quintets a (quantum (int_of_byte b0) 0 0 0 0) 2 ++ padding a 6
  | [b0; b1] =>
      quintets a (quantum (int_of_byte b0) (int_of_byte b1) 0 0 0) 4 ++ padding a 4
  | [b0; b1; b2] =>
      quintets a (quantum (int_of_byte b0) (int_of_byte b1) (int_of_byte b2) 0 0) 5
        ++ padding a 3
  | [b0; b1; b2; b3] =>
      quintets a (quantum (int_of_byte b0) (int_of_byte b1) (int_of_byte b2)
                          (int_of_byte b3) 0) 7 ++ padding a 1
  | b0 :: b1 :: b2 :: b3 :: b4 :: rest =>
      quintets a (quantum (int_of_byte b0) (int_of_byte b1) (int_of_byte b2)
                          (int_of_byte b3) (int_of_byte b4)) 8 ++ Encode a rest
  end.

Definition EncodeToString (e : b32_Encoding) (src : list byte) : string :=
  string_of_list_byte (Encode (alphabet e) src).

End b32.

(** The streaming encoder of [encoding/base64] and of [go-base32]: the
    two differ in the size of a group ([group] bytes), in the number of
    bytes they encode at a time ([chunk] bytes) and in [Encode]. *)
Module block.

Record state : Type := mkState {
  err : option error;  (* the error the encoder keeps *)
  buf : list byte;     (* the buffered bytes: buf[:nbuf] *)
  out : list byte      (* the output buffer, out [1024]byte *)
}.

Definition fresh : state := mkState None [] (repeat Byte.x00 1024).

(** [enc.Encode(out, src)] puts the encoding of [src] at the start of
    [out] and leaves the rest of [out] as it was. *)
Definition fill (encoded out : list byte) : list byte :=
  encoded ++ drop (List.length encoded) out.

Section Encoder.
Context {S : Type} (w : io_Writer S).
Variable group chunk : Z.
Variable Encode : list byte -> list byte.

(** The number of bytes of [out] that [Close] hands to [w], given the
    length of the encoding of the buffered bytes. *)
Variable flushed : Z -> Z.

(** "Large interior chunks": while a whole group is left, encode as many
    whole groups as fit into [out] and hand them to [w]; then keep the
    rest ("trailing fringe").  What is handed to [w] is the part of [out]
    that [Encode] has just filled.  Every turn consumes a group at least,
    so [fuel] counts the bytes of the input. *)
Fixpoint Write_interior (fuel : nat) (p : list byte) (n : Z) (o : list byte) (s : S)
  : (Z * option error) * (state * S) :=
  match fuel with
  | O => ((n + len p, None), (mkState None p o, s))
  | Datatypes.S fuel' =>
      if group <=? len p then
        let nn := if len p <? chunk then len p - Z.rem (len p) group else chunk in
        let encoded := Encode (take (Z.to_nat nn) p) in
        let '((_, e), s') := io_Write w s encoded in
        match e with
        | Some _ => ((n, e), (mkState e [] (fill encoded o), s'))
        | None => Write_interior fuel' (drop (Z.to_nat nn) p) (n + nn) (fill encoded o) s'
        end
      else ((n + len p, None), (mkState None p o, s))
  end.

Definition Write (st : state) (p : list byte) (s : S)
  : (Z * option error) * (state * S) :=
  match err st with
  | Some e => ((0, Some e), (st, s))
  | None =>
      if 0 <? len (buf st) then
        (* leading fringe: complete the buffered group *)
        let i := Z.min (len p) (group - len (buf st)) in
        let buf' := buf st ++ take (Z.to_nat i) p in
        let p' := drop (Z.to_nat i) p in
        if len buf' <? group then ((i, None), (mkState None buf' (out st), s))
        else
          let encoded := Encode buf' in
          let '((_, e), s') := io_Write w s encoded in
          match e with
          | Some _ => ((i, e), (mkState e buf' (fill encoded (out st)), s'))
          | None => Write_interior (List.length p') p' i (fill encoded (out st)) s'
          end
      else Write_interior (List.length p) p 0 (out st) s
  end.

(** [Close] encodes the buffered bytes, if any, into [out] and hands the
    first [flushed] bytes of [out] to [w]: the bytes [Encode] has just
    put there, and beyond them what [out] held before. *)
Definition Close (st : state) (s : S) : option error * (state * S) :=
  if bool_decide (err st = None) && (0 <? len (buf st)) then
    let encoded := Encode (buf st) in
    let o := fill encoded (out st) in
    let '((_, e), s') := io_Write w s (take (Z.to_nat (flushed (len encoded))) o) in
    (e, (mkState e [] o, s'))
  else (err st, (st, s)).

End Encoder.
End block.

(** The objects the three constructors allocate. *)
Inductive go_encoder : Type :=
| HexEncoder (err : option error)
| Base32Encoder (e : b32_Encoding) (st : block.state)
| Base64Encoder (e : base64_Encoding) (st : block.state).

Section GoLibrary.
Context {S : Type} (w : io_Writer S).

Definition b32_Write (e : b32_Encoding) := block.Write w 5 (1024 / 8 * 5) (b32.Encode (b32.alphabet e)).
(** The [Close] of [go-base32] writes [out[0:8]], whatever the length of
    the encoding; the [Close] of [encoding/base64] writes
    [out[:EncodedLen(nbuf)]]. *)
Definition b32_Close (e : b32_Encoding) :=
  block.Close w (b32.Encode (b32.alphabet e)) (fun _ => 8).
Definition base64_Write (e : base64_Encoding) :=
  block.Write w 3 (1024 / 4 * 3) (base64.Encode (base64.alphabet e)).
Definition base64_Close (e : base64_Encoding) :=
  block.Close w (base64.Encode (base64.alphabet e)) (fun encoded_len => encoded_len).

Definition go_Write (obj : go_encoder) (p : list byte) (s : S)
  : (Z * option error) * (go_encoder * S) :=
  match obj with
  | HexEncoder err =>
      let '(res, (err', s')) := hex.Write w err p s in (res, (HexEncoder err', s'))
  | Base32Encoder e st =>
      let '(res, (st', s')) := b32_Write e st p s in (res, (Base32Encoder e st', s'))
  | Base64Encoder e st =>
      let '(res, (st', s')) := base64_Write e st p s in (res, (Base64Encoder e st', s'))
  end.

(** The encoder of [encoding/hex] has no [Close]; the two others have. *)
Definition go_Close (obj : go_encoder) : option (S -> option error * (go_encoder * S)) :=
  match obj with
  | HexEncoder _ => None
  | Base32Encoder e st =>
      Some (fun s => let '(res, (st', s')) := b32_Close e st s in
                     (res, (Base32Encoder e st', s')))
  | Base64Encoder e st =>
      Some (fun s => let '(res, (st', s')) := base64_Close e st s in
                     (res, (Base64Encoder e st', s')))
  end.

Definition golib : Library S :=
  {| encoder := go_encoder;
     hex_NewEncoder := HexEncoder None;
     b32_NewEncoder := fun e => Base32Encoder e block.fresh;
     base64_NewEncoder := fun e => Base64Encoder e block.fresh;
     encoder_Write := go_Write;
     encoder_Close := go_Close |}.

End GoLibrary.

(** ** The dispatcher *)

Section Dispatcher.

Variable EncodingToStr : gmap Z string.

(** The codec set: the whole-buffer encoder of every identifier, the body
    it produces for a buffer.  The codecs are outside the package's core;
    they are a parameter here. *)
Variable codec_encode : Encoding -> list byte -> string.

(** Modelled from the spec: the dispatcher [Encode(base, data)] of the
    package, declared outside [encoder.go].  It fails with
    [UnsupportedEncoding] when the identifier is not in the registry, and
    otherwise returns the tag followed by the body the codec of the
    identifier produces. *)
Definition Encode (base : Encoding) (data : list byte) : string * option error :=
  if registered EncodingToStr base then
    (string_of_rune base +:+ codec_encode base data, None)
  else ("", Some ErrUnsupportedEncoding).

(** [func (p Encoder) Encode(data []byte) string] *)
Definition Encoder_Encode (p : Encoder) (data : list byte) : outcome string :=
  let '(str, err) := Encode (enc p) data in
  match err with
  | Some e => Panicked (PanicError e) (* should not happen *)
  | None => Returned str
  end.

End Dispatcher.

(** Modelled from the spec: the codecs of the fourteen streamable
    identifiers, as the dispatcher pairs them with the identifiers (the
    encodings the writer selects for them).  The codecs of the other
    bases (base2, upper-case hex, base36, base58, emoji) are not described
    in this development: their body is left empty here, and no statement
    below evaluates it. *)
Definition codecs (base : Encoding) (data : list byte) : string :=
  if base =? Identity then string_of_list_byte data
  else if base =? Base16 then hex.EncodeToString data
  else if base =? Base32 then b32.EncodeToString base32StdLowerNoPad data
  else if base =? Base32Upper then b32.EncodeToString base32StdUpperNoPad data
  else if base =? Base32hex then b32.EncodeToString base32HexLowerNoPad data
  else if base =? Base32hexUpper then b32.EncodeToString base32HexUpperNoPad data
  else if base =? Base32pad then b32.EncodeToString base32StdLowerPad data
  else if base =? Base32padUpper then b32.EncodeToString base32StdUpperPad data
  else if base =? Base32hexPad then b32.EncodeToString base32HexLowerPad data
  else if base =? Base32hexPadUpper then b32.EncodeToString base32HexUpperPad data
  else if base =? Base64pad then base64.EncodeToString StdEncoding data
  else if base =? Base64urlPad then base64.EncodeToString URLEncoding data
  else if base =? Base64url then base64.EncodeToString RawURLEncoding data
  else if base =? Base64 then base64.EncodeToString RawStdEncoding data
  else "".

(** ** The vocabulary of the statements *)

(** The identifiers for which [newEncoderWriter] selects a processor, and
    the seven it lists as unsupported. *)
Definition streamable : list Encoding :=
  [ Identity; Base16; Base32; Base32Upper; Base32hex; Base32hexUpper;
    Base32pad; Base32padUpper; Base32hexPad; Base32hexPadUpper;
    Base64pad; Base64urlPad; Base64url; Base64 ].

Definition unsupported_as_writer : list Encoding :=
  [ Base2; Base16Upper; Base36; Base36Upper; Base58BTC; Base58Flickr; Base256Emoji ].

(** A handle that one of the three validating constructors returned. *)
Inductive validated (EncodingToStr : gmap Z string) (Encodings : gmap string Z)
  : Encoder -> Prop :=
| by_NewEncoder base p :
    NewEncoder EncodingToStr base = (p, None) ->
    validated EncodingToStr Encodings p
| by_MustNewEncoder base p :
    MustNewEncoder EncodingToStr base = Returned p ->
    validated EncodingToStr Encodings p
| by_EncoderByName str p :
    EncoderByName EncodingToStr Encodings str = (p, None) ->
    validated EncodingToStr Encodings p.

(** The two tables agree: every identifier a name stands for is in the
    identifier table. *)
Definition tables_consistent (EncodingToStr : gmap Z string) (Encodings : gmap string Z)
  : Prop :=
  forall str base, Encodings !! str = Some base -> is_Some (EncodingToStr !! base).

(** The sink after its own [Close], when its type has one; a sink without
    [Close] stays as it is. *)
Definition own_Close {S} (sink_obj : io_Writer S) (s : S) : S :=
  match io_Close sink_obj with
  | Some close => (close s).2
  | None => s
  end.

(** The library encoder that [newEncoderWriter] allocates for an
    identifier, if it allocates one. *)
Definition allocated {S} (lib : Library S) (enc : Encoding) (s : S) : option (encoder lib) :=
  codec (newEncoderWriter lib enc s).2.

(** The sink after [e.Write(data)] and, when the encoder has one,
    [e.Close()]. *)
Definition written_and_closed {S} (lib : Library S) (e : encoder lib)
    (data : list byte) (s : S) : S :=
  let '(_, (e1, s1)) := encoder_Write lib e data s in
  match encoder_Close lib e1 with
  | Some close => (close s1).2.2
  | None => s1
  end.

(** The streaming equivalence of the spec at one input: the chunks
    written to a buffer and the writer closed, against the whole-buffer
    [Encode] of their concatenation. *)
Definition streaming_equivalence_at (lib : Library (list byte))
    (EncodingToStr : gmap Z string) (codec_encode : Encoding -> list byte -> string)
    (enc : Encoding) (chunks : list (list byte)) : Prop :=
  stream Buffer lib enc chunks [] =
  list_byte_of_string (Encode EncodingToStr codec_encode enc (concat chunks)).1.

(** ** Checking a property on a range of integers *)

Section RangeCheck.
Variable f : Z -> bool.

(** [f] on every integer from [lo] up to [lo + 2 ^ depth], excluded. *)
Fixpoint check_range (depth : nat) (lo : Z) : bool :=
  match depth with
  | O => f lo
  | Datatypes.S d => check_range d lo && check_range d (lo + 2 ^ Z.of_nat d)
  end.

End RangeCheck.

Definition in_byte_range (c : Z) : bool := (0 <=? c) && (c <? 256).

(** What the round trip of a rune asks of its encoding. *)
Definition round_trips (r : Z) : bool :=
  let s := utf8.EncodeRune r in
  forallb in_byte_range s && negb (len s =? 0) &&
  (fst (utf8.DecodeRune s) =? r) && (snd (utf8.DecodeRune s) =? len s).

Definition round_trips_if_valid (r : Z) : bool :=
  negb (utf8.ValidRune r) || round_trips r.

(** * Properties *)

(** ** The constructors of the handle *)

Section HandleFacts.

Variable EncodingToStr : gmap Z string.
Variable Encodings : gmap string Z.

Lemma registered_true base :
  registered EncodingToStr base = true <-> is_Some (EncodingToStr !! base).
Proof. unfold registered. apply bool_decide_eq_true. Qed.

Lemma registered_false base :
  registered EncodingToStr base = false <-> EncodingToStr !! base = None.
Proof.
  unfold registered. rewrite bool_decide_eq_false.
  rewrite <- eq_None_not_Some. reflexivity.
Qed.

Lemma NewEncoder_registered base :
  is_Some (EncodingToStr !! base) ->
  NewEncoder EncodingToStr base = (mkEncoder base, None).
Proof.
  intros H. apply registered_true in H. unfold NewEncoder. rewrite H. reflexivity.
Qed.

Lemma NewEncoder_unregistered base :
  EncodingToStr !! base = None ->
  NewEncoder EncodingToStr base = (mkEncoder (-1), Some (UnsupportedEncodingId base)).
Proof.
  intros H. apply registered_false in H. unfold NewEncoder. rewrite H. reflexivity.
Qed.

(** C5.  [NewEncoder] returns an error exactly when the identifier is
    absent from the identifier table, the error is an
    [UnsupportedEncoding] one, and in the other case the handle it returns
    holds the identifier it was given. *)
Theorem NewEncoder_spec (base : Encoding) :
  match EncodingToStr !! base with
  | None =>
      exists e, (NewEncoder EncodingToStr base).2 = Some e /\ UnsupportedEncoding e
  | Some _ =>
      (NewEncoder EncodingToStr base).2 = None /\
      Encoder_Encoding (NewEncoder EncodingToStr base).1 = base
  end.
Proof.
  destruct (EncodingToStr !! base) as [name|] eqn:Hlook.
  - rewrite NewEncoder_registered by eauto. split; reflexivity.
  - rewrite NewEncoder_unregistered by exact Hlook.
    exists (UnsupportedEncodingId base). split; [reflexivity | exact I].
Qed.

(** C7.  [MustNewEncoder] makes the lookup [NewEncoder] makes: where
    [NewEncoder] returns an error it panics, and where [NewEncoder]
    returns a handle it returns that handle. *)
Theorem MustNewEncoder_spec (base : Encoding) :
  match NewEncoder EncodingToStr base with
  | (_, Some _) =>
      EncodingToStr !! base = None /\
      exists v, MustNewEncoder EncodingToStr base = Panicked v
  | (p, None) =>
      is_Some (EncodingToStr !! base) /\
      MustNewEncoder EncodingToStr base = Returned p
  end.
Proof.
  unfold NewEncoder, MustNewEncoder.
  destruct (registered EncodingToStr base) eqn:Hreg; simpl.
  - split; [apply registered_true; exact Hreg | reflexivity].
  - split; [apply registered_false; exact Hreg | eauto].
Qed.

Lemma EncoderByName_empty :
  EncoderByName EncodingToStr Encodings "" = (mkEncoder (-1), Some EmptyEncodingName).
Proof. reflexivity. Qed.

Lemma len_zero {A} (l : list A) : (len l =? 0) = true <-> l = [].
Proof.
  unfold len. rewrite Z.eqb_eq. destruct l; simpl; split; intros H; try done; lia.
Qed.

Lemma RuneCount_from_nonneg s : forall skip, 0 <= utf8.RuneCount_from skip s.
Proof.
  induction s as [|c s IH]; intros skip; cbn [utf8.RuneCount_from]; [lia|].
  destruct skip as [|k]; [|apply IH].
  specialize (IH (Z.to_nat ((utf8.DecodeRune (c :: s)).2 - 1))). lia.
Qed.

(** An empty string holds no rune, so a string that holds one is not
    empty. *)
Lemma RuneCount_positive_nonempty str :
  0 < utf8.RuneCountInString str -> (len (list_byte_of_string str) =? 0) = false.
Proof.
  intros H. apply not_true_iff_false. rewrite len_zero. intros Hnil.
  unfold utf8.RuneCountInString, utf8.bytes in H. rewrite Hnil in H. simpl in H. lia.
Qed.

(** A string of one rune is looked up as a tag. *)
Lemma EncoderByName_tag str :
  utf8.RuneCountInString str = 1 ->
  EncoderByName EncodingToStr Encodings str =
    let r := (utf8.DecodeRuneInString str).1 in
    if registered EncodingToStr r then (mkEncoder r, None)
    else (mkEncoder (-1), Some (UnsupportedEncodingName str)).
Proof.
  intros H1. unfold EncoderByName.
  rewrite RuneCount_positive_nonempty by lia.
  rewrite H1. simpl. destruct (utf8.DecodeRuneInString str) as [r size]. simpl.
  destruct (registered EncodingToStr r); reflexivity.
Qed.

(** A string of several runes is looked up as a name. *)
Lemma EncoderByName_name str :
  1 < utf8.RuneCountInString str ->
  EncoderByName EncodingToStr Encodings str =
    match Encodings !! str with
    | Some base => (mkEncoder base, None)
    | None => (mkEncoder (-1), Some (UnsupportedEncodingName str))
    end.
Proof.
  intros H1. unfold EncoderByName.
  rewrite RuneCount_positive_nonempty by lia.
  assert ((utf8.RuneCountInString str =? 1) = false) as -> by (apply Z.eqb_neq; lia).
  destruct (Encodings !! str); reflexivity.
Qed.

End HandleFacts.

(** ** UTF-8: a rune survives encoding and decoding *)

Section RangeCheckFacts.
Variable f : Z -> bool.

Lemma check_range_sound depth : forall lo r,
  check_range f depth lo = true -> lo <= r < lo + 2 ^ Z.of_nat depth -> f r = true.
Proof.
  induction depth as [|d IH]; intros lo r H Hr.
  - simpl in *. replace r with lo by lia. exact H.
  - cbn [check_range] in H. apply andb_prop in H as [H1 H2].
    rewrite Nat2Z.inj_succ, Z.pow_succ_r in Hr by lia.
    destruct (Z_lt_ge_dec r (lo + 2 ^ Z.of_nat d)).
    + apply (IH lo); [exact H1 | lia].
    + apply (IH (lo + 2 ^ Z.of_nat d)); [exact H2 | lia].
Qed.
End RangeCheckFacts.

Lemma int_of_byte_of_int c : 0 <= c < 256 -> int_of_byte (byte_of_int c) = c.
Proof.
  intros Hc.
  assert (check_range (fun c => int_of_byte (byte_of_int c) =? c) 8 0 = true) as H
    by (vm_compute; reflexivity).
  apply Z.eqb_eq. apply (check_range_sound _ 8 0 c H). simpl. lia.
Qed.

Lemma bytes_of_ints (l : list Z) :
  Forall (fun c => 0 <= c < 256) l ->
  utf8.bytes (string_of_list_byte (byte_of_int <$> l)) = l.
Proof.
  intros H. unfold utf8.bytes. rewrite list_byte_of_string_of_list_byte.
  induction H as [|c l Hc _ IH]; simpl; [reflexivity|].
  rewrite int_of_byte_of_int by exact Hc. f_equal. exact IH.
Qed.

Lemma RuneCount_from_skip s : forall skip,
  (List.length s <= skip)%nat -> utf8.RuneCount_from skip s = 0.
Proof.
  induction s as [|c s IH]; intros skip H; cbn [utf8.RuneCount_from]; [reflexivity|].
  simpl in H. destruct skip as [|k]; [lia|]. apply IH. lia.
Qed.

(** A sequence that decodes as one rune of its whole length counts one
    rune. *)
Lemma RuneCount_one s r :
  s <> [] -> utf8.DecodeRune s = (r, len s) -> utf8.RuneCount_from 0 s = 1.
Proof.
  intros Hne Hdec. destruct s as [|c rest]; [done|].
  cbn [utf8.RuneCount_from]. rewrite Hdec. cbn [snd].
  rewrite RuneCount_from_skip; [reflexivity|]. unfold len. simpl. lia.
Qed.

(** The runes of one, two and three bytes, by enumeration. *)
Lemma round_trips_bmp r : 0 <= r < 0x10000 -> round_trips_if_valid r = true.
Proof.
  intros Hr.
  assert (check_range round_trips_if_valid 16 0 = true) as H by (vm_compute; reflexivity).
  apply (check_range_sound _ 16 0 r H). simpl. lia.
Qed.

(** The runes of four bytes, by arithmetic on their four digits. *)

Lemma land_disjoint x y k :
  0 <= k -> 0 <= y < 2 ^ k -> Z.land (x * 2 ^ k) y = 0.
Proof.
  intros Hk Hy. apply Z.bits_inj'. intros n Hn.
  rewrite Z.land_spec, Z.bits_0.
  destruct (Z_lt_ge_dec n k) as [Hlt|Hge].
  - rewrite Z.mul_pow2_bits_low by lia. reflexivity.
  - destruct (Z.eq_dec y 0) as [->|Hy0].
    + rewrite Z.bits_0. apply andb_false_r.
    + rewrite (Z.bits_above_log2 y n); [apply andb_false_r | lia |].
      assert (Z.log2 y < k) by (apply Z.log2_lt_pow2; lia). lia.
Qed.

Lemma lor_disjoint x y k :
  0 <= k -> 0 <= y < 2 ^ k -> Z.lor (x * 2 ^ k) y = x * 2 ^ k + y.
Proof.
  intros Hk Hy. pose proof (land_disjoint x y k Hk Hy) as H.
  rewrite <- (Z.lxor_lor _ _ H). symmetry. apply Z.add_nocarry_lxor. exact H.
Qed.

Lemma continuation_byte x :
  0 <= x < 64 ->
  Z.lor utf8.tx x = 128 + x /\ Z.land (128 + x) utf8.maskx = x.
Proof.
  intros Hx.
  assert (check_range (fun x => (Z.lor utf8.tx x =? 128 + x) &&
                                  (Z.land (128 + x) utf8.maskx =? x)) 6 0 = true) as H
    by (vm_compute; reflexivity).
  pose proof (check_range_sound _ 6 0 x H) as Hc. simpl in Hc.
  specialize (Hc ltac:(lia)). apply andb_prop in Hc as [H1 H2].
  split; apply Z.eqb_eq; assumption.
Qed.

Lemma continuation_lor x : 0 <= x < 64 -> Z.lor utf8.tx x = 128 + x.
Proof. intros H. apply continuation_byte. exact H. Qed.

Lemma continuation_land x : 0 <= x < 64 -> Z.land (128 + x) utf8.maskx = x.
Proof. intros H. apply continuation_byte. exact H. Qed.

Lemma DecodeRune_four c0 c1 c2 c3 lo hi :
  (utf8.as_ <=? utf8.first c0) = false ->
  Z.land (utf8.first c0) 7 = 4 ->
  utf8.acceptRanges (Z.shiftr (utf8.first c0) 4) = (lo, hi) ->
  (c1 <? lo) || (hi <? c1) = false ->
  (c2 <? utf8.locb) || (utf8.hicb <? c2) = false ->
  (c3 <? utf8.locb) || (utf8.hicb <? c3) = false ->
  utf8.DecodeRune [c0; c1; c2; c3] =
    (Z.lor (Z.lor (Z.lor (Z.shiftl (Z.land c0 utf8.mask4) 18)
                         (Z.shiftl (Z.land c1 utf8.maskx) 12))
                  (Z.shiftl (Z.land c2 utf8.maskx) 6))
           (Z.land c3 utf8.maskx), 4).
Proof.
  intros H0 Hsz Hacc H1 H2 H3. unfold utf8.DecodeRune.
  rewrite H0, Hsz, Hacc, H1, H2, H3. reflexivity.
Qed.

Lemma digits64 r :
  r = ((r / 2 ^ 18 * 2 ^ 6 + (r / 2 ^ 12) mod 2 ^ 6) * 2 ^ 6 + (r / 2 ^ 6) mod 2 ^ 6) * 2 ^ 6
      + r mod 2 ^ 6.
Proof.
  change (2 ^ 18) with (2 ^ 6 * 2 ^ 6 * 2 ^ 6). change (2 ^ 12) with (2 ^ 6 * 2 ^ 6).
  rewrite <- !Z.div_div by lia.
  pose proof (Z.div_mod r (2 ^ 6) ltac:(lia)).
  pose proof (Z.div_mod (r / 2 ^ 6) (2 ^ 6) ltac:(lia)).
  pose proof (Z.div_mod (r / 2 ^ 6 / 2 ^ 6) (2 ^ 6) ltac:(lia)).
  lia.
Qed.

Lemma round_trips_astral r : 0x10000 <= r <= 0x10FFFF -> round_trips r = true.
Proof.
  intros Hr.
  pose proof (digits64 r) as Hsum.
  assert (0 <= r / 2 ^ 18 <= 4) as Ha.
  { split; [apply Z.div_pos; lia|].
    apply Z.lt_succ_r. apply Z.div_lt_upper_bound; lia. }
  assert (0 <= (r / 2 ^ 12) mod 2 ^ 6 < 64) as Hb by (apply Z.mod_pos_bound; lia).
  assert (0 <= (r / 2 ^ 6) mod 2 ^ 6 < 64) as Hc by (apply Z.mod_pos_bound; lia).
  assert (0 <= r mod 2 ^ 6 < 64) as Hd by (apply Z.mod_pos_bound; lia).
  assert (utf8.EncodeRune r =
          [Z.lor utf8.t4 (r / 2 ^ 18); 128 + (r / 2 ^ 12) mod 2 ^ 6;
           128 + (r / 2 ^ 6) mod 2 ^ 6; 128 + r mod 2 ^ 6]) as Henc.
  { unfold utf8.EncodeRune.
    assert ((r <=? 0x7F) = false) as -> by (apply Z.leb_gt; lia).
    assert ((r <=? 0x7FF) = false) as -> by (apply Z.leb_gt; lia).
    assert ((r <? 0) = false) as -> by (apply Z.ltb_ge; lia).
    assert ((utf8.MaxRune <? r) = false) as -> by (apply Z.ltb_ge; unfold utf8.MaxRune; lia).
    assert ((r <=? 0xDFFF) = false) as -> by (apply Z.leb_gt; lia).
    assert ((r <=? 0xFFFF) = false) as -> by (apply Z.leb_gt; lia).
    rewrite !andb_false_r. simpl orb. cbv iota.
    rewrite !Z.shiftr_div_pow2 by lia.
    change utf8.maskx with (Z.ones 6). rewrite !Z.land_ones by lia.
    rewrite !continuation_lor by assumption.
    reflexivity. }
  revert Hsum Ha Hb Hc Hd Henc.
  generalize (r / 2 ^ 18) ((r / 2 ^ 12) mod 2 ^ 6) ((r / 2 ^ 6) mod 2 ^ 6) (r mod 2 ^ 6).
  intros a b c d Hsum Ha Hb Hc Hd Henc.
  unfold round_trips. rewrite Henc. clear Henc.
  assert (forallb in_byte_range [Z.lor utf8.t4 a; 128 + b; 128 + c; 128 + d] = true) as ->.
  { assert (0 <= Z.lor utf8.t4 a < 256)
      by (assert (a = 0 \/ a = 1 \/ a = 2 \/ a = 3 \/ a = 4) as [->|[->|[->|[->| ->]]]] by lia;
          vm_compute; split; congruence).
    unfold in_byte_range. cbn [forallb]. rewrite !andb_true_r.
    repeat (apply andb_true_intro; split); first [apply Z.leb_le | apply Z.ltb_lt]; lia. }
  assert (utf8.DecodeRune [Z.lor utf8.t4 a; 128 + b; 128 + c; 128 + d] = (r, 4)) as ->.
  { assert ((128 + c <? utf8.locb) || (utf8.hicb <? 128 + c) = false) as Hc2.
    { apply orb_false_intro; apply Z.ltb_ge; unfold utf8.locb, utf8.hicb; lia. }
    assert ((128 + d <? utf8.locb) || (utf8.hicb <? 128 + d) = false) as Hc3.
    { apply orb_false_intro; apply Z.ltb_ge; unfold utf8.locb, utf8.hicb; lia. }
    assert (Z.lor (Z.lor (Z.lor (Z.shiftl a 18) (Z.shiftl b 12)) (Z.shiftl c 6)) d = r) as Hval.
    { rewrite !Z.shiftl_mul_pow2 by lia.
      rewrite (lor_disjoint a (b * 2 ^ 12) 18) by lia.
      replace (a * 2 ^ 18 + b * 2 ^ 12) with ((a * 2 ^ 6 + b) * 2 ^ 12) by lia.
      rewrite (lor_disjoint _ (c * 2 ^ 6) 12) by lia.
      replace ((a * 2 ^ 6 + b) * 2 ^ 12 + c * 2 ^ 6)
        with (((a * 2 ^ 6 + b) * 2 ^ 6 + c) * 2 ^ 6) by lia.
      rewrite (lor_disjoint _ d 6) by lia. lia. }
    assert (exists lo hi,
              (utf8.as_ <=? utf8.first (Z.lor utf8.t4 a)) = false /\
              Z.land (utf8.first (Z.lor utf8.t4 a)) 7 = 4 /\
              utf8.acceptRanges (Z.shiftr (utf8.first (Z.lor utf8.t4 a)) 4) = (lo, hi) /\
              Z.land (Z.lor utf8.t4 a) utf8.mask4 = a /\
              lo <= 128 + b <= hi) as (lo & hi & H0 & Hsz & Hacc & Hmask & Hrange).
    { assert (a = 0 \/ a = 1 \/ a = 2 \/ a = 3 \/ a = 4) as [Ea|[Ea|[Ea|[Ea|Ea]]]] by lia;
        rewrite Ea in *.
      - exists 0x90, utf8.hicb. repeat split; try reflexivity; unfold utf8.hicb; lia.
      - exists utf8.locb, utf8.hicb. repeat split; try reflexivity;
          unfold utf8.locb, utf8.hicb; lia.
      - exists utf8.locb, utf8.hicb. repeat split; try reflexivity;
          unfold utf8.locb, utf8.hicb; lia.
      - exists utf8.locb, utf8.hicb. repeat split; try reflexivity;
          unfold utf8.locb, utf8.hicb; lia.
      - exists utf8.locb, 0x8F. repeat split; try reflexivity; unfold utf8.locb; lia. }
    rewrite (DecodeRune_four _ _ _ _ lo hi H0 Hsz Hacc); [| | exact Hc2 | exact Hc3].
    - rewrite Hmask, !continuation_land by assumption. rewrite Hval. reflexivity.
    - apply orb_false_intro; apply Z.ltb_ge; lia. }
  cbn [fst snd]. rewrite Z.eqb_refl. reflexivity.
Qed.

(** Every valid rune: its encoding is made of bytes, is not empty, and
    decodes as the rune over its whole length. *)
Lemma rune_round_trip r :
  utf8.ValidRune r = true ->
  Forall (fun c => 0 <= c < 256) (utf8.EncodeRune r) /\
  utf8.EncodeRune r <> [] /\
  utf8.DecodeRune (utf8.EncodeRune r) = (r, len (utf8.EncodeRune r)).
Proof.
  intros Hvalid.
  assert (round_trips r = true) as H.
  { destruct (Z_lt_ge_dec r 0x10000) as [Hlt|Hge].
    - assert (0 <= r) as H0.
      { unfold utf8.ValidRune in Hvalid.
        apply orb_prop in Hvalid as [H|H]; apply andb_prop in H as [H1 H2]; lia. }
      pose proof (round_trips_bmp r ltac:(lia)) as H.
      unfold round_trips_if_valid in H. rewrite Hvalid in H. exact H.
    - apply round_trips_astral.
      unfold utf8.ValidRune, utf8.MaxRune in Hvalid.
      apply orb_prop in Hvalid as [H|H]; apply andb_prop in H as [H1 H2]; lia. }
  unfold round_trips in H.
  apply andb_prop in H as [H Hsize]. apply andb_prop in H as [H Hrune].
  apply andb_prop in H as [Hbytes Hlen].
  split; [|split].
  - apply Forall_forall. intros c Hin. apply list_elem_of_In in Hin.
    rewrite forallb_forall in Hbytes. specialize (Hbytes c Hin).
    unfold in_byte_range in Hbytes. apply andb_prop in Hbytes as [H1 H2]. lia.
  - intros Hnil. rewrite Hnil in Hlen. discriminate Hlen.
  - destruct (utf8.DecodeRune (utf8.EncodeRune r)) as [r' size]. simpl in *.
    apply Z.eqb_eq in Hrune, Hsize. congruence.
Qed.

(** The string of one valid rune counts one rune and decodes as it. *)
Lemma string_of_rune_decodes r :
  utf8.ValidRune r = true ->
  utf8.RuneCountInString (string_of_rune r) = 1 /\
  (utf8.DecodeRuneInString (string_of_rune r)).1 = r.
Proof.
  intros Hvalid. destruct (rune_round_trip r Hvalid) as (Hbytes & Hne & Hdec).
  unfold utf8.RuneCountInString, utf8.DecodeRuneInString, string_of_rune.
  rewrite bytes_of_ints by exact Hbytes. split.
  - exact (RuneCount_one _ _ Hne Hdec).
  - rewrite Hdec. reflexivity.
Qed.

(** ** [EncoderByName] and [Encoder.Encode] *)

(** C4.  [EncoderByName] fails with [EmptyEncodingName] on the empty
    string; the string of one code point is resolved as a tag, the code
    point being looked up in the identifier table; a string of several
    code points is resolved as a name; both fail with an
    [UnsupportedEncoding] error that carries the string when the lookup
    fails.  With the tables of the spec, ["b"] and ["base32"] give handles
    of the same identifier. *)
Theorem EncoderByName_spec :
  (forall (EncodingToStr : gmap Z string) (Encodings : gmap string Z),
     EncoderByName EncodingToStr Encodings "" = (mkEncoder (-1), Some EmptyEncodingName) /\
     (forall r, utf8.ValidRune r = true ->
        EncoderByName EncodingToStr Encodings (string_of_rune r) =
          match EncodingToStr !! r with
          | Some _ => (mkEncoder r, None)
          | None => (mkEncoder (-1), Some (UnsupportedEncodingName (string_of_rune r)))
          end) /\
     (forall str, 1 < utf8.RuneCountInString str ->
        EncoderByName EncodingToStr Encodings str =
          match Encodings !! str with
          | Some base => (mkEncoder base, None)
          | None => (mkEncoder (-1), Some (UnsupportedEncodingName str))
          end)) /\
  EncoderByName SpecTable.EncodingToStr SpecTable.Encodings "b" = (mkEncoder Base32, None) /\
  EncoderByName SpecTable.EncodingToStr SpecTable.Encodings "base32" = (mkEncoder Base32, None).
Proof.
  split; [|split; vm_compute; reflexivity].
  intros tbl names. split; [reflexivity|]. split.
  - intros r Hvalid. destruct (string_of_rune_decodes r Hvalid) as [Hcount Hrune].
    rewrite EncoderByName_tag by exact Hcount. cbv zeta. rewrite Hrune.
    destruct (tbl !! r) as [name|] eqn:Hlook.
    + assert (registered tbl r = true) as -> by (apply registered_true; eauto).
      reflexivity.
    + assert (registered tbl r = false) as -> by (apply registered_false; exact Hlook).
      reflexivity.
  - intros str Hcount. apply EncoderByName_name. exact Hcount.
Qed.

Section DispatcherFacts.

Variable EncodingToStr : gmap Z string.
Variable Encodings : gmap string Z.
Variable codec_encode : Encoding -> list byte -> string.

(** The identifier of a validated handle is in the identifier table. *)
Lemma validated_registered p :
  tables_consistent EncodingToStr Encodings ->
  validated EncodingToStr Encodings p -> registered EncodingToStr (enc p) = true.
Proof.
  intros Hcons [base q H | base q H | str q H].
  - unfold NewEncoder in H. destruct (registered EncodingToStr base) eqn:Hreg; simpl in H.
    + injection H as <-. exact Hreg.
    + discriminate H.
  - unfold MustNewEncoder in H. destruct (registered EncodingToStr base) eqn:Hreg; simpl in H.
    + injection H as <-. exact Hreg.
    + discriminate H.
  - unfold EncoderByName in H.
    destruct (len (list_byte_of_string str) =? 0); [discriminate H|].
    destruct (utf8.RuneCountInString str =? 1).
    + destruct (utf8.DecodeRuneInString str) as [r size].
      destruct (registered EncodingToStr r) eqn:Hreg; simpl in H.
      * injection H as <-. exact Hreg.
      * discriminate H.
    + destruct (Encodings !! str) as [base|] eqn:Hname; simpl in H; [|discriminate H].
      injection H as <-. simpl. apply registered_true. exact (Hcons str base Hname).
Qed.

(** C6.  On a handle that a validating constructor returned, [Encode]
    returns a string, the one the dispatcher produced without error: the
    error branch is not taken.  Whenever the dispatcher does report an
    error, [Encode] panics with it and returns nothing.  The tables are
    those of a registry: the names stand for registered identifiers. *)
Theorem Encoder_Encode_validated (p : Encoder) (data : list byte) :
  tables_consistent EncodingToStr Encodings ->
  validated EncodingToStr Encodings p ->
  (exists str,
     Encoder_Encode EncodingToStr codec_encode p data = Returned str /\
     Encode EncodingToStr codec_encode (enc p) data = (str, None)) /\
  (forall (q : Encoder) (d : list byte) (e : error),
     (Encode EncodingToStr codec_encode (enc q) d).2 = Some e ->
     Encoder_Encode EncodingToStr codec_encode q d = Panicked (PanicError e)).
Proof.
  intros Hcons Hp. split.
  - pose proof (validated_registered p Hcons Hp) as Hreg.
    unfold Encoder_Encode, Encode. rewrite Hreg. eauto.
  - intros q d e He. unfold Encoder_Encode.
    destruct (Encode EncodingToStr codec_encode (enc q) d) as [str err].
    simpl in He. rewrite He. reflexivity.
Qed.

End DispatcherFacts.

(** ** The writer *)

Section WriterFacts.

Context {S : Type}.
Variable sink_obj : io_Writer S.
Variable lib : Library S.

Lemma newEncoderWriter_unsupported enc s :
  In enc unsupported_as_writer ->
  newEncoderWriter lib enc s = (mkEncoderWriter enc the_sink false None, mkWorld s None).
Proof.
  intros Hin. simpl in Hin.
  destruct Hin as [<-|[<-|[<-|[<-|[<-|[<-|[<-|[]]]]]]]]; reflexivity.
Qed.

(** For a streamable identifier the processor is the sink itself
    ([Identity]) or a library encoder that was allocated. *)
Lemma newEncoderWriter_streamable enc s :
  In enc streamable ->
  (enc = Identity /\
   newEncoderWriter lib enc s =
     (mkEncoderWriter enc the_sink false (Some the_sink), mkWorld s None)) \/
  (enc <> Identity /\ exists e,
   newEncoderWriter lib enc s =
     (mkEncoderWriter enc the_sink false (Some the_encoder), mkWorld s (Some e))).
Proof.
  intros Hin. simpl in Hin.
  destruct Hin as [<-|Hin]; [left; split; reflexivity|].
  right.
  repeat (destruct Hin as [<-|Hin]; [split; [discriminate | eexists; reflexivity]|]).
  destruct Hin.
Qed.

(** Whatever the identifier, [newEncoderWriter] leaves the sink alone;
    the processor is the sink itself for [Identity] only, an encoder it
    allocated, or nil. *)
Lemma newEncoderWriter_cases enc s :
  (enc = Identity /\
   newEncoderWriter lib enc s =
     (mkEncoderWriter enc the_sink false (Some the_sink), mkWorld s None)) \/
  (enc <> Identity /\ exists e,
   newEncoderWriter lib enc s =
     (mkEncoderWriter enc the_sink false (Some the_encoder), mkWorld s (Some e))) \/
  (enc <> Identity /\
   newEncoderWriter lib enc s = (mkEncoderWriter enc the_sink false None, mkWorld s None)).
Proof.
  unfold newEncoderWriter.
  destruct (Z.eqb_spec enc Identity) as [->|Hne]; [left; split; reflexivity|].
  right.
  repeat match goal with
         | |- context [if ?b then _ else _] =>
             destruct b; [left; split; [exact Hne | eexists; reflexivity] |]
         end.
  right. split; [exact Hne | reflexivity].
Qed.

(** C3.  For each of the seven identifiers without streaming encoder,
    every [Write] on the writer returns [-1] and the error "unsupported
    encoding as writer", and leaves the writer and the objects as they
    were: the sink receives nothing, whatever the number of calls. *)
Theorem Write_unsupported (enc : Encoding) (s : S) (chunks : list (list byte)) :
  In enc unsupported_as_writer ->
  Write_each sink_obj lib (NewWriter lib enc s) chunks =
    ((fun _ => (-1, Some UnsupportedAsWriter)) <$> chunks, NewWriter lib enc s) /\
  sink (objects (NewWriter lib enc s)) = s.
Proof.
  intros Hin. unfold NewWriter. rewrite (newEncoderWriter_unsupported enc s Hin).
  split; [|reflexivity].
  induction chunks as [|p rest IH]; [reflexivity|].
  cbn [Write_each]. unfold call_Write at 1. cbn. rewrite IH. reflexivity.
Qed.

(** C10.  When the sink answers the write of the tag with an error,
    [Write] returns zero and that error; the payload is not handed to the
    processor: the encoder of the library is as it was and the sink has
    seen the write of the tag only. *)
Theorem Write_tag_failure (enc : Encoding) (s0 : S) (p : list byte) (w : world lib)
    (n : Z) (e : error) (s' : S) :
  In enc streamable ->
  io_Write sink_obj (sink w) [byte_of_int enc] = ((n, Some e), s') ->
  Write sink_obj lib (newEncoderWriter lib enc s0).1 p w = ((0, Some e), mkWorld s' (codec w)).
Proof.
  intros Hin Hfail.
  destruct (newEncoderWriter_streamable enc s0 Hin) as [[_ ->]|[_ [e0 ->]]];
    unfold Write, Write_body; cbn; rewrite Hfail; reflexivity.
Qed.

(** X2.  When the sink takes the tag, whatever count it reports, [Write]
    goes on with the payload: its results and its effects are those of
    the processor's [Write] on the world the tag was written to, so that
    the count it returns never includes the tag.  This holds at every
    call on the struct [newEncoderWriter] returned, the first and the
    later ones: the struct never has [headerWritten] set, and every call
    sends the tag. *)
Lemma Write_tag_success (enc : Encoding) (s0 : S) (p : list byte) (w : world lib)
    (n : Z) (s' : S) :
  In enc streamable ->
  io_Write sink_obj (sink w) [byte_of_int enc] = ((n, None), s') ->
  exists proc,
    processor (newEncoderWriter lib enc s0).1 = Some proc /\
    Write sink_obj lib (newEncoderWriter lib enc s0).1 p w =
      ref_Write sink_obj lib proc p (mkWorld s' (codec w)).
Proof.
  intros Hin Hok.
  destruct (newEncoderWriter_streamable enc s0 Hin) as [[_ ->]|[_ [e0 ->]]];
    eexists; (split; [reflexivity|]);
    unfold Write, Write_body; cbn; rewrite Hok; cbn.
  - destruct (io_Write sink_obj s' p) as [res s2]. reflexivity.
  - destruct (codec w) as [e|]; [|reflexivity].
    destruct (encoder_Write lib e p s') as [res [e' s2]]. reflexivity.
Qed.

(** In that case the body of [Write] does set [headerWritten], in its
    copy of the receiver. *)
Lemma Write_body_sets_its_copy (enc : Encoding) (s0 : S) (p : list byte) (w : world lib)
    (n : Z) (s' : S) :
  In enc streamable ->
  io_Write sink_obj (sink w) [byte_of_int enc] = ((n, None), s') ->
  headerWritten (Write_body sink_obj lib (newEncoderWriter lib enc s0).1 p w).1.1 = true.
Proof.
  intros Hin Hok.
  destruct (newEncoderWriter_streamable enc s0 Hin) as [[_ ->]|[_ [e0 ->]]];
    unfold Write_body; cbn; rewrite Hok; cbn.
  - destruct (io_Write sink_obj s' p) as [res s2]. reflexivity.
  - destruct (codec w) as [e|]; [|reflexivity].
    destruct (encoder_Write lib e p s') as [res [e' s2]]. reflexivity.
Qed.

(** C8.  [Close] calls the [Close] of the processor when the processor
    has one, and its result is the result of that call; it returns [nil]
    and changes nothing when the processor has none, or when there is no
    processor. *)
Theorem Close_spec (ew : encoderWriter) (w : world lib) :
  match processor ew with
  | None => Close sink_obj lib ew w = (None, w)
  | Some the_sink =>
      match io_Close sink_obj with
      | Some close =>
          Close sink_obj lib ew w =
            (let '(err, s) := close (sink w) in (err, mkWorld s (codec w)))
      | None => Close sink_obj lib ew w = (None, w)
      end
  | Some the_encoder =>
      match codec w with
      | Some e =>
          match encoder_Close lib e with
          | Some close =>
              Close sink_obj lib ew w =
                (let '(err, (e', s)) := close (sink w) in (err, mkWorld s (Some e')))
          | None => Close sink_obj lib ew w = (None, w)
          end
      | None => Close sink_obj lib ew w = (None, w)
      end
  end.
Proof.
  unfold Close, ref_Closer.
  destruct (processor ew) as [[|]|]; [| |reflexivity].
  - destruct (io_Close sink_obj); reflexivity.
  - destruct (codec w) as [e|]; [|reflexivity].
    destruct (encoder_Close lib e); reflexivity.
Qed.

(** The flag [headerWritten] that [Write] sets is set in the copy of the
    receiver: the struct the caller holds is never changed. *)
Lemma call_Write_this (i : instance lib) (p : list byte) :
  this (call_Write sink_obj lib i p).2 = this i.
Proof.
  unfold call_Write. destruct (Write sink_obj lib (this i) p (objects i)). reflexivity.
Qed.

Lemma Write_each_this (chunks : list (list byte)) : forall i : instance lib,
  this (Write_each sink_obj lib i chunks).2 = this i.
Proof.
  induction chunks as [|p rest IH]; intros i; [reflexivity|].
  cbn [Write_each].
  destruct (call_Write sink_obj lib i p) as [res i1] eqn:H1.
  pose proof (IH i1) as H2.
  destruct (Write_each sink_obj lib i1 rest) as [ress i2]. cbn [snd] in *.
  rewrite H2. pose proof (call_Write_this i p) as H. rewrite H1 in H. exact H.
Qed.

End WriterFacts.

Lemma list_byte_of_string_app (a b : string) :
  list_byte_of_string (a +:+ b) = list_byte_of_string a ++ list_byte_of_string b.
Proof.
  induction a as [|c a IH]; [reflexivity|].
  change (String c a +:+ b) with (String c (a +:+ b)).
  change (list_byte_of_string (String c (a +:+ b)))
    with (byte_of_ascii c :: list_byte_of_string (a +:+ b)).
  rewrite IH. reflexivity.
Qed.

(** The tag of a streamable identifier is one byte, the byte [Write]
    sends. *)
Lemma streamable_tag enc :
  In enc streamable -> list_byte_of_string (string_of_rune enc) = [byte_of_int enc].
Proof.
  intros Hin. simpl in Hin.
  repeat (destruct Hin as [<-|Hin]; [vm_compute; reflexivity|]). destruct Hin.
Qed.

Lemma string_of_rune_nonempty r : string_of_rune r <> "".
Proof.
  unfold string_of_rune, utf8.EncodeRune.
  repeat match goal with |- context [if ?b then _ else _] => destruct b end;
    discriminate.
Qed.

Section CloseFacts.

Context {S : Type}.
Variable sink_obj : io_Writer S.
Variable lib : Library S.
Variable EncodingToStr : gmap Z string.
Variable codec_encode : Encoding -> list byte -> string.

(** C9.  A writer that is closed before any [Write] has written nothing,
    whatever the identifier: the sink is as it was, or as its own [Close]
    leaves it when the processor is the sink itself ([Identity]) and the
    sink has a [Close]; not even the tag is written.  The whole-buffer
    [Encode] of the empty buffer is the tag, which is not empty.  The
    library is asked that the [Close] of an encoder that was given
    nothing writes nothing. *)
Theorem Close_before_Write :
  (forall enc s e close,
     allocated lib enc s = Some e -> encoder_Close lib e = Some close ->
     (close s).2.2 = s) ->
  (forall enc s,
     stream sink_obj lib enc [] s =
       if enc =? Identity then own_Close sink_obj s else s) /\
  (forall enc,
     is_Some (EncodingToStr !! enc) -> codec_encode enc [] = "" ->
     Encode EncodingToStr codec_encode enc [] = (string_of_rune enc, None) /\
     string_of_rune enc <> "").
Proof.
  intros Hquiet. split.
  - intros enc s. unfold stream, NewWriter.
    specialize (Hquiet enc s). unfold allocated in Hquiet.
    destruct (newEncoderWriter_cases lib enc s) as [[-> Hnew]|[[Hne [e Hnew]]|[Hne Hnew]]];
      rewrite Hnew in *; cbn [Write_each snd]; unfold call_Close, Close, ref_Closer;
      cbn [this objects processor codec sink].
    + change (Identity =? Identity) with true. cbv iota. unfold own_Close.
      destruct (io_Close sink_obj) as [close|]; [|reflexivity].
      cbn [sink codec]. destruct (close s) as [err s1]. reflexivity.
    + apply Z.eqb_neq in Hne. rewrite Hne.
      destruct (encoder_Close lib e) as [close|] eqn:Hclose; [|reflexivity].
      specialize (Hquiet e close eq_refl Hclose).
      cbn [sink codec]. destruct (close s) as [err [e1 s1]]. exact Hquiet.
    + apply Z.eqb_neq in Hne. rewrite Hne. reflexivity.
  - intros enc Hreg Hempty. split; [|apply string_of_rune_nonempty].
    unfold Encode. rewrite (proj2 (registered_true EncodingToStr enc) Hreg), Hempty.
    f_equal. induction (string_of_rune enc) as [|ch str IH]; [reflexivity|].
    change (String ch str +:+ "") with (String ch (str +:+ "")). rewrite IH. reflexivity.
Qed.

End CloseFacts.

(** ** The writer on a buffer *)

Section BufferFacts.

Variable lib : Library (list byte).
Variable EncodingToStr : gmap Z string.
Variable codec_encode : Encoding -> list byte -> string.

(** On the identity encoding the processor is the buffer itself, and the
    buffer shows what every call did: each [Write] puts the tag in front
    of its chunk. *)
Lemma tag_before_every_chunk (chunks : list (list byte)) : forall s,
  sink (objects (Write_each Buffer lib (NewWriter lib Identity s) chunks).2) =
    s ++ flat_map (fun p => byte_of_int Identity :: p) chunks.
Proof.
  induction chunks as [|p rest IH]; intros s.
  - cbn. rewrite app_nil_r. reflexivity.
  - specialize (IH ((s ++ [byte_of_int Identity]) ++ p)).
    cbn in *.
    destruct (Write_each Buffer lib _ rest) as [ress i2] eqn:H2 in IH |- *.
    cbn in *. rewrite IH, <- !app_assoc. reflexivity.
Qed.

End BufferFacts.

(** ** The encoders of the libraries on a buffer *)

Lemma len_nonneg {A} (l : list A) : 0 <= len l.
Proof. unfold len. lia. Qed.

Lemma len_take {A} (l : list A) (n : Z) :
  0 <= n <= len l -> len (take (Z.to_nat n) l) = n.
Proof. unfold len. intros H. rewrite length_take_le by lia. lia. Qed.

Lemma len_drop {A} (l : list A) (n : Z) :
  0 <= n <= len l -> len (drop (Z.to_nat n) l) = len l - n.
Proof. unfold len. intros H. rewrite length_drop. lia. Qed.

Lemma hex_Encode_app a b : hex.Encode (a ++ b) = hex.Encode a ++ hex.Encode b.
Proof. apply flat_map_app. Qed.

Lemma hex_Encode_len p : len (hex.Encode p) = 2 * len p.
Proof.
  unfold len. induction p as [|b p IH]; [reflexivity|].
  change (hex.Encode (b :: p)) with ([hex.digit (Z.shiftr (int_of_byte b) 4);
                                      hex.digit (Z.land (int_of_byte b) 0x0f)] ++ hex.Encode p).
  rewrite length_app. simpl length. lia.
Qed.

(** The hex encoder on a buffer takes all its input and appends the
    digits. *)
Lemma hex_Write_loop_Buffer fuel : forall p n s,
  (List.length p <= fuel)%nat ->
  hex.Write_loop Buffer fuel None p n s =
    ((n + len p, None), (None, s ++ hex.Encode p)).
Proof.
  induction fuel as [|fuel IH]; intros p n s Hfuel.
  - destruct p; [|simpl in Hfuel; lia].
    cbn. rewrite Z.add_0_r, app_nil_r. reflexivity.
  - cbn [hex.Write_loop].
    destruct (0 <? len p) eqn:Hpos.
    + apply Z.ltb_lt in Hpos. cbn [andb].
      rewrite bool_decide_eq_true_2 by reflexivity.
      set (chunkSize := if len p <? hex.bufferSize / 2 then len p else hex.bufferSize / 2).
      assert (0 < chunkSize <= len p) as Hchunk.
      { subst chunkSize. change (hex.bufferSize / 2) with 512.
        destruct (Z.ltb_spec (len p) 512); lia. }
      clearbody chunkSize. cbn [io_Write Buffer].
      rewrite IH.
      * rewrite hex_Encode_len, len_take, len_drop by lia.
        rewrite <- app_assoc, <- hex_Encode_app, take_drop.
        replace (Z.quot (2 * chunkSize) 2) with chunkSize
          by (rewrite Z.mul_comm, Z.quot_mul; lia).
        replace (n + chunkSize + (len p - chunkSize)) with (n + len p) by lia.
        reflexivity.
      * rewrite length_drop. unfold len in Hchunk. lia.
    + apply Z.ltb_ge in Hpos. pose proof (len_nonneg p) as H0.
      assert (p = []) as -> by (destruct p; [reflexivity | unfold len in Hpos; simpl in Hpos; lia]).
      cbn. rewrite Z.add_0_r, app_nil_r. reflexivity.
Qed.

Lemma hex_Write_Buffer p s :
  hex.Write Buffer None p s = ((len p, None), (None, s ++ hex.Encode p)).
Proof. unfold hex.Write. rewrite hex_Write_loop_Buffer by lia. reflexivity. Qed.

Section BlockFacts.

Variable group chunk : Z.
Variable Encode : list byte -> list byte.
Variable flushed : Z -> Z.
Hypothesis group_pos : 0 < group.
Hypothesis chunk_groups : group <= chunk /\ Z.rem chunk group = 0.
Hypothesis Encode_nil : Encode [] = [].
Hypothesis Encode_app : forall a b,
  Z.rem (len a) group = 0 -> Encode (a ++ b) = Encode a ++ Encode b.
Hypothesis flushed_rest : forall b,
  0 < len b < group -> flushed (len (Encode b)) = len (Encode b).

(** On a buffer the interior loop takes all its input, appends the groups
    it encodes and keeps a rest shorter than a group; what it appended
    and the encoding of the rest make the encoding of the input. *)
Lemma Write_interior_Buffer fuel : forall p n o s,
  (List.length p <= fuel)%nat ->
  exists rest done o',
    block.Write_interior Buffer group chunk Encode fuel p n o s =
      ((n + len p, None), (block.mkState None rest o', s ++ done)) /\
    done ++ Encode rest = Encode p /\
    len rest < group.
Proof.
  induction fuel as [|fuel IH]; intros p n o s Hfuel.
  - destruct p; [|simpl in Hfuel; lia].
    exists [], [], o. cbn. rewrite app_nil_r. split; [reflexivity|].
    split; [reflexivity | exact group_pos].
  - cbn [block.Write_interior].
    destruct (group <=? len p) eqn:Hwhole.
    + apply Z.leb_le in Hwhole.
      set (nn := if len p <? chunk then len p - Z.rem (len p) group else chunk).
      assert (0 < nn <= len p /\ Z.rem nn group = 0) as [Hnn Hrem].
      { subst nn. destruct (Z.ltb_spec (len p) chunk) as [Hlt|Hge].
        - pose proof (Z.rem_bound_pos (len p) group ltac:(lia) group_pos) as Hb.
          split; [lia|].
          rewrite Z.rem_mod_nonneg in * by lia.
          rewrite Z.rem_mod_nonneg by lia.
          rewrite Zminus_mod_idemp_r, Z.sub_diag. apply Z.mod_0_l. lia.
        - split; [lia | apply chunk_groups]. }
      clearbody nn. cbv zeta. cbn [io_Write Buffer].
      destruct (IH (drop (Z.to_nat nn) p) (n + nn)
                   (block.fill (Encode (take (Z.to_nat nn) p)) o)
                   (s ++ Encode (take (Z.to_nat nn) p)))
        as (rest & done & o' & Hrun & Hdone & Hrest).
      { rewrite length_drop. unfold len in Hnn. lia. }
      exists rest, (Encode (take (Z.to_nat nn) p) ++ done), o'.
      rewrite Hrun. rewrite len_drop by lia. split; [|split; [|exact Hrest]].
      * rewrite <- app_assoc.
        replace (n + nn + (len p - nn)) with (n + len p) by lia. reflexivity.
      * rewrite <- app_assoc, Hdone, <- Encode_app, take_drop; [reflexivity|].
        rewrite len_take by lia. exact Hrem.
    + apply Z.leb_gt in Hwhole.
      exists p, [], o. rewrite app_nil_r. split; [reflexivity|].
      split; [reflexivity | exact Hwhole].
Qed.

(** A fresh encoder that is given [data] and closed has appended the
    encoding of [data], when [Close] hands over the bytes of the final
    group and no more. *)
Lemma block_Write_Close_Buffer data s :
  let '(_, (st, s1)) := block.Write Buffer group chunk Encode block.fresh data s in
  (block.Close Buffer Encode flushed st s1).2.2 = s ++ Encode data.
Proof.
  change (block.Write Buffer group chunk Encode block.fresh data s)
    with (block.Write_interior Buffer group chunk Encode (List.length data) data 0
            (block.out block.fresh) s).
  destruct (Write_interior_Buffer (List.length data) data 0 (block.out block.fresh) s
              ltac:(lia)) as (rest & done & o' & Hrun & Hdone & Hshort).
  rewrite Hrun. unfold block.Close. cbn [block.err block.buf block.out].
  rewrite bool_decide_eq_true_2 by reflexivity. cbn [andb].
  destruct (0 <? len rest) eqn:Hrest.
  - apply Z.ltb_lt in Hrest. cbv zeta. cbn [io_Write Buffer snd].
    rewrite flushed_rest by lia. unfold block.fill, len.
    rewrite Nat2Z.id, take_app_length, <- app_assoc, Hdone. reflexivity.
  - apply Z.ltb_ge in Hrest.
    assert (rest = []) as -> by (destruct rest; [reflexivity | unfold len in Hrest; simpl in Hrest; lia]).
    cbn. rewrite Encode_nil, app_nil_r in Hdone. rewrite Hdone. reflexivity.
Qed.

End BlockFacts.

(** A list whose length is a multiple of [g]. *)
Lemma whole_groups {A} (g : nat) (x : list A) :
  (0 < g)%nat -> Z.rem (len x) (Z.of_nat g) = 0 -> exists n, List.length x = (g * n)%nat.
Proof.
  intros Hg Hrem. rewrite Z.rem_mod_nonneg in Hrem by (unfold len; lia).
  apply Z.mod_divide in Hrem; [|lia]. destruct Hrem as [z Hz].
  exists (Z.to_nat z). unfold len in Hz. nia.
Qed.

Lemma base64_Encode_app a x y :
  Z.rem (len x) 3 = 0 ->
  base64.Encode a (x ++ y) = base64.Encode a x ++ base64.Encode a y.
Proof.
  intros Hrem. destruct (whole_groups 3 x ltac:(lia) Hrem) as [n Hn]. clear Hrem.
  revert x Hn. induction n as [|n IH]; intros x Hn.
  - destruct x; [reflexivity | simpl in Hn; lia].
  - destruct x as [|b0 [|b1 [|b2 x]]]; simpl in Hn; try lia.
    cbn [base64.Encode app]. rewrite IH by lia. reflexivity.
Qed.

Lemma b32_Encode_app a x y :
  Z.rem (len x) 5 = 0 ->
  b32.Encode a (x ++ y) = b32.Encode a x ++ b32.Encode a y.
Proof.
  intros Hrem. destruct (whole_groups 5 x ltac:(lia) Hrem) as [n Hn]. clear Hrem.
  revert x Hn. induction n as [|n IH]; intros x Hn.
  - destruct x; [reflexivity | simpl in Hn; lia].
  - destruct x as [|b0 [|b1 [|b2 [|b3 [|b4 x]]]]]; simpl in Hn; try lia.
    cbn [b32.Encode app]. rewrite IH by lia. rewrite <- app_assoc. reflexivity.
Qed.

(** The three encoders keep the contract of their whole-buffer
    functions. *)
Lemma golib_hex data s :
  written_and_closed (golib Buffer) (HexEncoder None) data s = s ++ hex.Encode data.
Proof.
  unfold written_and_closed. cbn [encoder_Write golib go_Write].
  rewrite hex_Write_Buffer. reflexivity.
Qed.

Lemma golib_base64 k data s :
  written_and_closed (golib Buffer) (Base64Encoder k block.fresh) data s =
    s ++ base64.Encode (base64.alphabet k) data.
Proof.
  assert (0 < 3) as Hgroup by lia.
  assert (3 <= 1024 / 4 * 3 /\ Z.rem (1024 / 4 * 3) 3 = 0) as Hchunk
    by (split; [discriminate | reflexivity]).
  pose proof (block_Write_Close_Buffer 3 (1024 / 4 * 3) (base64.Encode (base64.alphabet k))
                (fun encoded_len => encoded_len)
                Hgroup Hchunk eq_refl (base64_Encode_app (base64.alphabet k))
                (fun b _ => eq_refl) data s) as H.
  unfold written_and_closed. cbn [encoder_Write golib go_Write]. unfold base64_Write.
  destruct (block.Write Buffer 3 (1024 / 4 * 3) (base64.Encode (base64.alphabet k))
              block.fresh data s) as [res [st s1]].
  cbn [encoder_Close golib go_Close]. unfold base64_Close.
  destruct (block.Close Buffer (base64.Encode (base64.alphabet k))
              (fun encoded_len => encoded_len) st s1) as [err [st2 s2]].
  exact H.
Qed.

(** With padding, the final group of base32 has eight characters. *)
Lemma b32_Encode_rest_len a b :
  padChar a <> None -> 0 < len b < 5 -> len (b32.Encode a b) = 8.
Proof.
  intros Hpad Hb. unfold len in *.
  destruct b as [|b0 [|b1 [|b2 [|b3 [|b4 b]]]]]; simpl in Hb; try lia;
    cbn [b32.Encode]; rewrite length_app; unfold b32.quintets, padding;
    (destruct (padChar a) as [c|]; [|contradiction]);
    rewrite length_fmap, length_seq, repeat_length; reflexivity.
Qed.

(** The base32 encoder keeps the contract for the padded encodings, where
    the eight bytes its [Close] writes are the final group. *)
Lemma golib_b32_padded k data s :
  padChar (b32.alphabet k) <> None ->
  written_and_closed (golib Buffer) (Base32Encoder k block.fresh) data s =
    s ++ b32.Encode (b32.alphabet k) data.
Proof.
  intros Hpad.
  assert (0 < 5) as Hgroup by lia.
  assert (5 <= 1024 / 8 * 5 /\ Z.rem (1024 / 8 * 5) 5 = 0) as Hchunk
    by (split; [discriminate | reflexivity]).
  pose proof (block_Write_Close_Buffer 5 (1024 / 8 * 5) (b32.Encode (b32.alphabet k))
                (fun _ => 8)
                Hgroup Hchunk eq_refl (b32_Encode_app (b32.alphabet k))
                (fun b Hb => eq_sym (b32_Encode_rest_len (b32.alphabet k) b Hpad Hb))
                data s) as H.
  unfold written_and_closed. cbn [encoder_Write golib go_Write]. unfold b32_Write.
  destruct (block.Write Buffer 5 (1024 / 8 * 5) (b32.Encode (b32.alphabet k))
              block.fresh data s) as [res [st s1]].
  cbn [encoder_Close golib go_Close]. unfold b32_Close.
  destruct (block.Close Buffer (b32.Encode (b32.alphabet k)) (fun _ => 8) st s1)
    as [err [st2 s2]].
  exact H.
Qed.

(** The [Close] of the encoder the writer allocates, before any [Write],
    leaves the sink alone. *)
Lemma golib_quiet_Close {S} (w : io_Writer S) enc (s : S) e close :
  allocated (golib w) enc s = Some e ->
  encoder_Close (golib w) e = Some close ->
  (close s).2.2 = s.
Proof.
  unfold allocated, newEncoderWriter.
  repeat match goal with
         | |- context [if ?b then _ else _] => destruct b
         end;
    cbn; intros Halloc Hclose;
    first [discriminate Halloc | injection Halloc as <-];
    cbn in Hclose; first [discriminate Hclose | injection Hclose as <-]; reflexivity.
Qed.

Lemma SpecTable_consistent :
  tables_consistent SpecTable.EncodingToStr SpecTable.Encodings.
Proof.
  intros str base Hname. unfold SpecTable.Encodings in Hname.
  apply elem_of_list_to_map_2 in Hname.
  apply list_elem_of_fmap in Hname as [[base' str'] [Heq Hin]].
  apply elem_of_map_to_list in Hin. simpl in Heq. injection Heq as -> ->.
  eauto.
Qed.

(** ** The theorems on concrete writers *)

(** C1, on the code.  Two successful [Write] calls on one base16 writer
    over a buffer: each call returns its count and no error, and the
    buffer holds the tag ['f'] twice, once in front of the digits of each
    chunk.  The struct the caller holds still has [headerWritten] unset. *)
Theorem Write_twice_writes_tag_twice :
  let i := NewWriter (golib Buffer) Base16 [] in
  let '(results, i') := Write_each Buffer (golib Buffer) i [[Byte.x01]; [Byte.x02]] in
  results = [(1, None); (1, None)] /\
  sink (objects i') = list_byte_of_string "f01f02" /\
  headerWritten (this i') = false.
Proof. vm_compute. repeat split; reflexivity. Qed.

(** A base16 writer that is closed without a [Write] leaves the buffer
    empty, where [Encode] of the empty buffer is the tag: the tag is
    written by a [Write], never by [Close]. *)
Lemma stream_no_Write_differs :
  ~ streaming_equivalence_at (golib Buffer) SpecTable.EncodingToStr codecs Base16 [].
Proof. unfold streaming_equivalence_at. vm_compute. discriminate. Qed.

(** C2, on the code.  The two bytes [01 02] streamed to a base16 writer
    in two chunks and the writer closed: the buffer holds "f01f02", the
    tag being sent again by the second [Write], where [Encode] of the same
    two bytes is "f0102".  The streaming equivalence fails at this
    input. *)
Theorem stream_two_Writes_repeats_tag :
  stream Buffer (golib Buffer) Base16 [[Byte.x01]; [Byte.x02]] [] =
    list_byte_of_string "f01f02" /\
  Encode SpecTable.EncodingToStr codecs Base16 (concat [[Byte.x01]; [Byte.x02]]) =
    ("f0102"%string, None) /\
  ~ streaming_equivalence_at (golib Buffer) SpecTable.EncodingToStr codecs Base16
      [[Byte.x01]; [Byte.x02]].
Proof.
  split; [vm_compute; reflexivity|]. split; [vm_compute; reflexivity|].
  unfold streaming_equivalence_at. vm_compute. discriminate.
Qed.

(** The unpadded base32 encodings in one [Write]: the [Close] of the
    library writes eight bytes of its output buffer where the final group
    has fewer characters, so that the byte [66] comes out as "bmy"
    followed by six zero bytes, where [Encode] gives "bmy". *)
Example stream_Base32_one_byte :
  stream Buffer (golib Buffer) Base32 [[Byte.x66]] [] =
    list_byte_of_string "bmy" ++ repeat Byte.x00 6 /\
  Encode SpecTable.EncodingToStr codecs Base32 [Byte.x66] = ("bmy"%string, None).
Proof. split; vm_compute; reflexivity. Qed.

Lemma Write_unsupported_witness :
  Write_each Buffer (golib Buffer) (NewWriter (golib Buffer) Base58BTC [])
    [list_byte_of_string "yes"; list_byte_of_string " mani !"] =
    ((fun _ => (-1, Some UnsupportedAsWriter)) <$>
       [list_byte_of_string "yes"; list_byte_of_string " mani !"],
     NewWriter (golib Buffer) Base58BTC []) /\
  sink (objects (NewWriter (golib Buffer) Base58BTC [])) = [].
Proof.
  apply (Write_unsupported Buffer (golib Buffer) Base58BTC []).
  simpl. tauto.
Defined.

Lemma Write_tag_failure_witness :
  let w : world (golib Broken) := (newEncoderWriter (golib Broken) Base16 0%nat).2 in
  Write Broken (golib Broken) (newEncoderWriter (golib Broken) Base16 0%nat).1
        (list_byte_of_string "yes mani !") w =
    ((0, Some ErrClosedPipe), mkWorld 1%nat (codec w)).
Proof.
  apply (Write_tag_failure Broken (golib Broken) Base16 0%nat
           (list_byte_of_string "yes mani !")
           (newEncoderWriter (golib Broken) Base16 0%nat).2
           0 ErrClosedPipe 1%nat).
  - simpl. tauto.
  - reflexivity.
Defined.

Lemma Close_before_Write_witness :
  stream Buffer (golib Buffer) Base64pad [] [] = [] /\
  stream Buffer (golib Buffer) Base58BTC [] [] = [] /\
  Encode SpecTable.EncodingToStr codecs Base64pad [] = ("M"%string, None).
Proof.
  destruct (Close_before_Write Buffer (golib Buffer) SpecTable.EncodingToStr codecs
              (golib_quiet_Close Buffer)) as [Hstream HEncode].
  split; [apply (Hstream Base64pad) | split; [apply (Hstream Base58BTC)|]].
  apply (HEncode Base64pad).
  - exists "base64pad"%string. vm_compute. reflexivity.
  - reflexivity.
Defined.

Lemma Encoder_Encode_validated_witness :
  exists str,
    Encoder_Encode SpecTable.EncodingToStr codecs (mkEncoder Base64url)
                   (list_byte_of_string "yes mani !") = Returned str /\
    Encode SpecTable.EncodingToStr codecs Base64url (list_byte_of_string "yes mani !")
      = (str, None).
Proof.
  apply (Encoder_Encode_validated SpecTable.EncodingToStr SpecTable.Encodings codecs
           (mkEncoder Base64url) (list_byte_of_string "yes mani !")).
  - exact SpecTable_consistent.
  - apply (by_EncoderByName _ _ "base64url"%string). vm_compute. reflexivity.
Defined.

(** The scenario of the spec: the handle for ["base64url"] encodes
    "yes mani !" as "ueWVzIG1hbmkgIQ", and so does the writer in one
    [Write]. *)
Example yes_mani :
  Encoder_Encode SpecTable.EncodingToStr codecs (mkEncoder Base64url)
                 (list_byte_of_string "yes mani !") = Returned "ueWVzIG1hbmkgIQ"%string /\
  stream Buffer (golib Buffer) Base64url [list_byte_of_string "yes mani !"] [] =
    list_byte_of_string "ueWVzIG1hbmkgIQ".
Proof. split; vm_compute; reflexivity. Qed.

(** [Close] flushes what the base64 encoder kept: after ["ye"] the
    buffer holds the tag only, and [Close] appends the final group. *)
Example Close_flushes :
  let i := (Write_each Buffer (golib Buffer) (NewWriter (golib Buffer) Base64url [])
              [list_byte_of_string "ye"]).2 in
  sink (objects i) = list_byte_of_string "u" /\
  sink (objects (call_Close Buffer (golib Buffer) i).2) = list_byte_of_string "ueWU".
Proof. split; vm_compute; reflexivity. Qed.

(** ** Further properties of the constructors *)

Lemma list_byte_of_string_nil str : list_byte_of_string str = [] -> str = "".
Proof.
  destruct str as [|c str]; [reflexivity|].
  change (list_byte_of_string (String c str))
    with (byte_of_ascii c :: list_byte_of_string str).
  discriminate.
Qed.

Section ConstructorFacts.

Variable EncodingToStr : gmap Z string.
Variable Encodings : gmap string Z.

(** X5.  What [EncoderByName] returns, in full.  With an error the handle
    is [Encoder{-1}]; the error is "empty multibase encoding" exactly for
    the empty string, and otherwise carries the string, the lookup having
    failed: of the rune in the identifier table for a string of one rune,
    of the string in the name table for any other.  Without error the
    string is not empty, and the identifier of the handle is the rune
    found in the identifier table, or what the name table gives for the
    string. *)
Theorem EncoderByName_result (str : string) :
  match EncoderByName EncodingToStr Encodings str with
  | (p, Some e) =>
      p = mkEncoder (-1) /\
      ((str = "" /\ e = EmptyEncodingName) \/
       (str <> "" /\ e = UnsupportedEncodingName str /\
        if utf8.RuneCountInString str =? 1
        then EncodingToStr !! (utf8.DecodeRuneInString str).1 = None
        else Encodings !! str = None))
  | (p, None) =>
      str <> "" /\
      if utf8.RuneCountInString str =? 1
      then enc p = (utf8.DecodeRuneInString str).1 /\ is_Some (EncodingToStr !! enc p)
      else Encodings !! str = Some (enc p)
  end.
Proof.
  unfold EncoderByName.
  destruct (len (list_byte_of_string str) =? 0) eqn:Hlen.
  - apply len_zero, list_byte_of_string_nil in Hlen. split; [reflexivity|].
    left. split; [exact Hlen | reflexivity].
  - assert (str <> "") as Hne by (intros ->; discriminate Hlen).
    destruct (utf8.RuneCountInString str =? 1).
    + destruct (utf8.DecodeRuneInString str) as [r size]. cbn [fst].
      destruct (registered EncodingToStr r) eqn:Hreg; cbn.
      * split; [exact Hne|]. split; [reflexivity|].
        apply registered_true. exact Hreg.
      * split; [reflexivity|]. right. split; [exact Hne|]. split; [reflexivity|].
        apply registered_false. exact Hreg.
    + destruct (Encodings !! str) as [base|]; cbn.
      * split; [exact Hne | reflexivity].
      * split; [reflexivity|]. right. split; [exact Hne|]. split; reflexivity.
Qed.

(** X6.  The tag of an identifier, as a string, names the identifier: for
    every valid rune, [EncoderByName] on its UTF-8 string and [NewEncoder]
    on the rune return the same handle, and one returns an error exactly
    when the other does. *)
Theorem EncoderByName_NewEncoder (r : Z) :
  utf8.ValidRune r = true ->
  (EncoderByName EncodingToStr Encodings (string_of_rune r)).1 =
    (NewEncoder EncodingToStr r).1 /\
  ((EncoderByName EncodingToStr Encodings (string_of_rune r)).2 = None <->
   (NewEncoder EncodingToStr r).2 = None).
Proof.
  intros Hvalid. destruct (string_of_rune_decodes r Hvalid) as [Hcount Hrune].
  rewrite (EncoderByName_tag EncodingToStr Encodings _ Hcount). cbv zeta. rewrite Hrune.
  unfold NewEncoder.
  destruct (registered EncodingToStr r); cbn; split; try reflexivity;
    split; intros H; discriminate H.
Qed.

(** X7.  A string made of one byte that is not ASCII is no valid UTF-8;
    it counts as one rune all the same, and [EncoderByName] looks up the
    replacement character U+FFFD as its tag: the name table is not
    consulted. *)
Theorem EncoderByName_invalid_byte (b : byte) :
  0x80 <= int_of_byte b ->
  EncoderByName EncodingToStr Encodings (string_of_list_byte [b]) =
    if registered EncodingToStr utf8.RuneError
    then (mkEncoder utf8.RuneError, None)
    else (mkEncoder (-1), Some (UnsupportedEncodingName (string_of_list_byte [b]))).
Proof.
  intros Hb.
  assert (utf8.RuneCountInString (string_of_list_byte [b]) = 1 /\
          (utf8.DecodeRuneInString (string_of_list_byte [b])).1 = utf8.RuneError)
    as [Hcount Hrune].
  { apply Z.leb_le in Hb.
    destruct b; vm_compute in Hb; try discriminate Hb; split; vm_compute; reflexivity. }
  rewrite (EncoderByName_tag EncodingToStr Encodings _ Hcount). cbv zeta. rewrite Hrune.
  reflexivity.
Qed.

(** X8.  A name is not checked against the identifier table: when the
    name table gives, for a string of several runes, an identifier that
    the identifier table does not hold, [EncoderByName] returns a handle
    for it without error, a handle [NewEncoder] refuses to build. *)
Theorem EncoderByName_unchecked_name (str : string) (base : Encoding) :
  1 < utf8.RuneCountInString str ->
  Encodings !! str = Some base ->
  EncodingToStr !! base = None ->
  EncoderByName EncodingToStr Encodings str = (mkEncoder base, None) /\
  NewEncoder EncodingToStr base = (mkEncoder (-1), Some (UnsupportedEncodingId base)).
Proof.
  intros Hcount Hname Hid. split.
  - rewrite (EncoderByName_name EncodingToStr Encodings str Hcount), Hname. reflexivity.
  - apply NewEncoder_unregistered. exact Hid.
Qed.

End ConstructorFacts.

(** ** Further properties of the writer *)

Section WriterMoreFacts.

Context {S : Type}.
Variable sink_obj : io_Writer S.
Variable lib : Library S.

Lemma newEncoderWriter_not_streamable enc s :
  ~ In enc streamable ->
  newEncoderWriter lib enc s = (mkEncoderWriter enc the_sink false None, mkWorld s None).
Proof.
  intros Hnot. unfold newEncoderWriter.
  repeat match goal with
         | |- context [if ?a =? ?b then _ else _] =>
             destruct (Z.eqb_spec a b) as [Heq|_];
             [exfalso; apply Hnot; rewrite Heq; simpl; tauto |]
         end.
  reflexivity.
Qed.

(** X1.  The writer of a handle whose identifier is not one of the
    fourteen with a streaming encoder, be it in the registry, out of it,
    or the [-1] of a handle returned with an error: the processor is nil,
    every [Write] returns [-1] and "unsupported encoding as writer",
    [Close] returns nil, and none of the calls touches the sink or the
    writer. *)
Theorem Writer_not_streamable (p : Encoder) (s : S) (chunks : list (list byte)) :
  ~ In (enc p) streamable ->
  let i := mkInstance (Encoder_Writer lib p s).1 (Encoder_Writer lib p s).2 in
  processor (this i) = None /\
  Write_each sink_obj lib i chunks =
    ((fun _ => (-1, Some UnsupportedAsWriter)) <$> chunks, i) /\
  call_Close sink_obj lib i = (None, i) /\
  sink (objects i) = s.
Proof.
  intros Hnot. unfold Encoder_Writer.
  rewrite (newEncoderWriter_not_streamable (enc p) s Hnot). cbn [fst snd].
  split; [reflexivity|]. split; [|split; reflexivity].
  induction chunks as [|c rest IH]; [reflexivity|].
  cbn [Write_each]. unfold call_Write at 1. cbn. rewrite IH. reflexivity.
Qed.

(** X4.  Closing an identity writer closes the sink it was given: after
    any number of [Write] calls, [Close] is the [Close] of the sink
    itself when the sink has one, with its result; on a sink without
    [Close] it returns nil and changes nothing. *)
Theorem Close_Identity (s : S) (chunks : list (list byte)) :
  let i := (Write_each sink_obj lib (NewWriter lib Identity s) chunks).2 in
  call_Close sink_obj lib i =
    match io_Close sink_obj with
    | Some close =>
        let '(err, s') := close (sink (objects i)) in
        (err, mkInstance (this i) (mkWorld s' (codec (objects i))))
    | None => (None, i)
    end.
Proof.
  intros i. pose proof (Write_each_this sink_obj lib chunks (NewWriter lib Identity s)) as Hthis.
  fold i in Hthis. destruct i as [ew w]. cbn [this objects] in *. subst ew.
  unfold call_Close, Close, ref_Closer. cbn [this objects NewWriter].
  change (processor (this (NewWriter lib Identity s))) with (Some the_sink).
  cbv iota. destruct (io_Close sink_obj) as [close|]; [|reflexivity].
  destruct (close (sink w)) as [err s']. reflexivity.
Qed.

End WriterMoreFacts.

Section IdentityOnBuffer.

Variable lib : Library (list byte).

Lemma call_Write_Identity_Buffer (s p : list byte) :
  call_Write Buffer lib (NewWriter lib Identity s) p =
    ((len p, None), NewWriter lib Identity ((s ++ [byte_of_int Identity]) ++ p)).
Proof. reflexivity. Qed.

(** X3.  The identity writer on a buffer, for any chunks: every [Write]
    returns the length of its chunk and no error, and the buffer holds,
    for each call in order, the tag byte [0x00] followed by the chunk;
    [Close] adds nothing.  The tag is there as many times as [Write] was
    called. *)
Theorem stream_Identity_Buffer (chunks : list (list byte)) (s : list byte) :
  (Write_each Buffer lib (NewWriter lib Identity s) chunks).1 =
    (fun p => (len p, None)) <$> chunks /\
  stream Buffer lib Identity chunks s =
    s ++ flat_map (fun p => byte_of_int Identity :: p) chunks.
Proof.
  unfold stream.
  assert (forall s,
    Write_each Buffer lib (NewWriter lib Identity s) chunks =
      ((fun p => (len p, None)) <$> chunks,
       NewWriter lib Identity (s ++ flat_map (fun p => byte_of_int Identity :: p) chunks)))
    as Hrun.
  { clear s. induction chunks as [|p rest IH]; intros s.
    - cbn. rewrite app_nil_r. reflexivity.
    - cbn [Write_each]. rewrite call_Write_Identity_Buffer, IH.
      cbn [fmap list_fmap flat_map]. rewrite <- !app_assoc. reflexivity. }
  rewrite Hrun. split; reflexivity.
Qed.

End IdentityOnBuffer.

(** ** The further properties on concrete inputs *)

Lemma Writer_not_streamable_witness :
  let i := mkInstance (Encoder_Writer (golib Buffer) (mkEncoder (-1)) []).1
                      (Encoder_Writer (golib Buffer) (mkEncoder (-1)) []).2 in
  processor (this i) = None /\
  Write_each Buffer (golib Buffer) i [list_byte_of_string "yes"] =
    ((fun _ => (-1, Some UnsupportedAsWriter)) <$> [list_byte_of_string "yes"], i) /\
  call_Close Buffer (golib Buffer) i = (None, i) /\
  sink (objects i) = [].
Proof.
  apply (Writer_not_streamable Buffer (golib Buffer) (mkEncoder (-1)) []
           [list_byte_of_string "yes"]).
  simpl. intros H. repeat (destruct H as [H|H]; [discriminate H|]). exact H.
Defined.

Lemma Write_tag_success_witness :
  let w : world (golib Buffer) :=
    @mkWorld _ (golib Buffer) (list_byte_of_string "f01") (Some (HexEncoder None)) in
  exists proc,
    processor (newEncoderWriter (golib Buffer) Base16 []).1 = Some proc /\
    Write Buffer (golib Buffer) (newEncoderWriter (golib Buffer) Base16 []).1
          [Byte.x02] w =
      ref_Write Buffer (golib Buffer) proc [Byte.x02]
        (mkWorld (list_byte_of_string "f01f") (codec w)).
Proof.
  intros w.
  apply (Write_tag_success Buffer (golib Buffer) Base16 [] [Byte.x02] w
           1 (list_byte_of_string "f01f")).
  - simpl. tauto.
  - reflexivity.
Defined.

Lemma EncoderByName_NewEncoder_witness :
  (EncoderByName SpecTable.EncodingToStr SpecTable.Encodings
     (string_of_rune Base256Emoji)).1 =
    (NewEncoder SpecTable.EncodingToStr Base256Emoji).1 /\
  ((EncoderByName SpecTable.EncodingToStr SpecTable.Encodings
      (string_of_rune Base256Emoji)).2 = None <->
   (NewEncoder SpecTable.EncodingToStr Base256Emoji).2 = None).
Proof.
  apply (EncoderByName_NewEncoder SpecTable.EncodingToStr SpecTable.Encodings Base256Emoji).
  reflexivity.
Defined.

Lemma EncoderByName_invalid_byte_witness :
  EncoderByName SpecTable.EncodingToStr SpecTable.Encodings (string_of_list_byte [Byte.xff]) =
    if registered SpecTable.EncodingToStr utf8.RuneError
    then (mkEncoder utf8.RuneError, None)
    else (mkEncoder (-1), Some (UnsupportedEncodingName (string_of_list_byte [Byte.xff]))).
Proof.
  apply (EncoderByName_invalid_byte SpecTable.EncodingToStr SpecTable.Encodings Byte.xff).
  vm_compute. discriminate.
Defined.

Lemma EncoderByName_unchecked_name_witness :
  EncoderByName (∅ : gmap Z string) ({[ "base8"%string := 55 ]} : gmap string Z) "base8" =
    (mkEncoder 55, None) /\
  NewEncoder (∅ : gmap Z string) 55 = (mkEncoder (-1), Some (UnsupportedEncodingId 55)).
Proof.
  apply (EncoderByName_unchecked_name ∅ {[ "base8"%string := 55 ]} "base8" 55).
  - vm_compute. reflexivity.
  - vm_compute. reflexivity.
  - reflexivity.
Defined.

Section RefusingSink.

Context {S : Type}.
Variable sink_obj : io_Writer S.
Variable lib : Library S.

(** A [Write] whose tag the sink refuses, on any struct with a processor
    that has [headerWritten] unset and the sink as [out]. *)
Lemma Write_refused (ew : encoderWriter) (proc : ref) (p : list byte) (w : world lib)
    (n : Z) (e : error) (s' : S) :
  processor ew = Some proc -> headerWritten ew = false -> out ew = the_sink ->
  io_Write sink_obj (sink w) [byte_of_int (ew_enc ew)] = ((n, Some e), s') ->
  Write sink_obj lib ew p w = ((0, Some e), mkWorld s' (codec w)).
Proof.
  intros Hproc Hflag Hout Hfail. unfold Write, Write_body.
  rewrite Hproc, Hflag, Hout. cbn. rewrite Hfail. reflexivity.
Qed.

(** X9.  On a sink that answers every [Write] with an error, a writer for
    a streamable identifier hands nothing to its encoder, however many
    times [Write] is called: every call returns zero and an error, and
    the encoder is as [newEncoderWriter] allocated it. *)
Theorem Write_each_refusing_sink (enc : Encoding) (s : S) (chunks : list (list byte)) :
  In enc streamable ->
  (forall s p, (io_Write sink_obj s p).1.2 <> None) ->
  let run := Write_each sink_obj lib (NewWriter lib enc s) chunks in
  Forall (fun r : Z * option error => r.1 = 0 /\ r.2 <> None) run.1 /\
  List.length run.1 = List.length chunks /\
  codec (objects run.2) = codec (objects (NewWriter lib enc s)).
Proof.
  intros Hin Hrefuse. unfold NewWriter.
  assert (exists proc c,
            newEncoderWriter lib enc s =
              (mkEncoderWriter enc the_sink false (Some proc), mkWorld s c))
    as (proc & c & ->).
  { destruct (newEncoderWriter_streamable lib enc s Hin) as [[_ ->]|[_ [e ->]]]; eauto. }
  cbn [objects codec].
  assert (forall s, exists ress i2,
            Write_each sink_obj lib
              (mkInstance (mkEncoderWriter enc the_sink false (Some proc)) (mkWorld s c))
              chunks = (ress, i2) /\
            Forall (fun r : Z * option error => r.1 = 0 /\ r.2 <> None) ress /\
            List.length ress = List.length chunks /\
            codec (objects i2) = c) as Hrun.
  { clear s. induction chunks as [|p rest IH]; intros s.
    - do 2 eexists. split; [reflexivity|]. split; [constructor | split; reflexivity].
    - cbn [Write_each]. unfold call_Write. cbn [this objects].
      destruct (io_Write sink_obj s [byte_of_int enc]) as [[n err] s'] eqn:Hw.
      pose proof (Hrefuse s [byte_of_int enc]) as Herr. rewrite Hw in Herr. cbn in Herr.
      destruct err as [e|]; [|contradiction].
      rewrite (Write_refused (mkEncoderWriter enc the_sink false (Some proc)) proc p
                 (mkWorld s c) n e s' eq_refl eq_refl eq_refl Hw).
      cbn [codec]. destruct (IH s') as (ress & i2 & -> & Hall & Hlen & Hcodec).
      do 2 eexists. split; [reflexivity|].
      split; [constructor; [split; [reflexivity | discriminate] | exact Hall]|].
      split; [cbn [List.length]; f_equal; exact Hlen | exact Hcodec]. }
  destruct (Hrun s) as (ress & i2 & -> & Hall & Hlen & Hcodec).
  cbn [fst snd]. auto.
Qed.

End RefusingSink.

Lemma Write_each_refusing_sink_witness :
  let run := Write_each Broken (golib Broken) (NewWriter (golib Broken) Base64 0%nat)
               [list_byte_of_string "yes"; list_byte_of_string " mani !"] in
  Forall (fun r : Z * option error => r.1 = 0 /\ r.2 <> None) run.1 /\
  List.length run.1 = 2%nat /\
  codec (objects run.2) = codec (objects (NewWriter (golib Broken) Base64 0%nat)).
Proof.
  apply (Write_each_refusing_sink Broken (golib Broken) Base64 0%nat
           [list_byte_of_string "yes"; list_byte_of_string " mani !"]).
  - simpl. tauto.
  - intros s p. discriminate.
Defined.
